(** * md-to-word: the Markdown-to-styled-document pipeline of
    [scripts/md_to_word.py], embedded function by function.

    Python [str] values that carry document text are sequences of Unicode
    code points ([list N]); short ASCII literals that only name things
    (dictionary keys, COM ProgIDs) are kept as [string]. *)

From Stdlib Require Import NArith ZArith.
From stdpp Require Import gmap strings list.
From Equations Require Import Equations.

Open Scope N_scope.
Open Scope list_scope.

(** ** Python strings *)
Module Py.

Definition char := N.
Definition str := list char.

(** An ASCII literal, read as a [str]. *)
Definition u (s : string) : str :=
  List.map (fun a => N.of_nat (Ascii.nat_of_ascii a)) (String.list_ascii_of_string s).

(** [str.isspace] and the regular-expression class [\s] agree on [str]
    patterns: both are [Py_UNICODE_ISSPACE]. *)
Definition is_space (c : char) : bool :=
  ((9 <=? c) && (c <=? 13)) || ((28 <=? c) && (c <=? 32))
  || (c =? 133) || (c =? 160) || (c =? 5760)
  || ((8192 <=? c) && (c <=? 8202))
  || (c =? 8232) || (c =? 8233) || (c =? 8239) || (c =? 8287) || (c =? 12288).

(** First code point of every run of ten decimal digits (general category
    Nd) in the Unicode 14.0 database shipped with CPython 3.11; the
    mathematical digits U+1D7CE..U+1D7FF are five such runs. *)
Definition decimal_zeros : list N :=
  [48; 1632; 1776; 1984; 2406; 2534; 2662; 2790; 2918; 3046; 3174; 3302;
   3430; 3558; 3664; 3792; 3872; 4160; 4240; 6112; 6160; 6470; 6608; 6784;
   6800; 6992; 7088; 7232; 7248; 42528; 43216; 43264; 43472; 43504; 43600;
   44016; 65296; 66720; 68912; 69734; 69872; 69942; 70096; 70384; 70736;
   70864; 71248; 71360; 71472; 71904; 72016; 72784; 73040; 73120; 92768;
   92864; 93008; 120782; 120792; 120802; 120812; 120822; 123200; 123632;
   125264; 130032].

(** [str.isdecimal] and the class [\d] on [str] patterns. *)
Definition is_decimal (c : char) : bool :=
  existsb (fun z => (z <=? c) && (c <? z + 10)) decimal_zeros.

(** [s.startswith(prefix)] *)
Fixpoint startswith (prefix s : str) : bool :=
  match prefix, s with
  | [], _ => true
  | a :: prefix', b :: s' => (a =? b) && startswith prefix' s'
  | _ :: _, [] => false
  end.

(** [s.lstrip()], [s.rstrip()], [s.strip()] with no argument. *)
Fixpoint lstrip (s : str) : str :=
  match s with
  | c :: s' => if is_space c then lstrip s' else s
  | [] => []
  end.

Definition rstrip (s : str) : str := rev (lstrip (rev s)).

Definition strip (s : str) : str := lstrip (rstrip s).

(** [s.split(sep)] for a one-character separator: never the empty list. *)
Fixpoint split (sep : char) (s : str) : list str :=
  match s with
  | [] => [[]]
  | c :: s' =>
      if c =? sep then [] :: split sep s'
      else match split sep s' with
           | piece :: pieces => (c :: piece) :: pieces
           | [] => [[c]]
           end
  end.

(** [sep.join(pieces)] *)
Fixpoint join (sep : str) (pieces : list str) : str :=
  match pieces with
  | [] => []
  | [piece] => piece
  | piece :: pieces' => piece ++ sep ++ join sep pieces'
  end.

(** [s.lower()] on the ASCII letters.  The only consumers compare the
    result with [y], [yes], [n], [no] and two CJK words, and no non-ASCII
    code point lowers to one of the letters y, e, s, n, o, so the
    comparison is the one Python makes. *)
Definition lower_char (c : char) : char :=
  if (65 <=? c) && (c <=? 90) then c + 32 else c.

Definition lower (s : str) : str := List.map lower_char s.

Definition newline : char := 10.

End Py.
Import Py.

(** ** The fragment of [re] that the script uses

    A backtracking matcher in the list-of-successes style: [exec r st]
    lists every way [r] can match at [st], in the order in which Python's
    matcher tries them, so the match Python reports is the head of the
    list.  Quantifiers occur in the script only over one-character classes
    ([.+?], [\s+], [\d+], [[^x]+]). *)
Module Re.

Inductive regex :=
| Chr (c : char)                         (* a literal character *)
| Cls (p : char -> bool)                 (* one character of a class *)
| Plus (greedy : bool) (p : char -> bool)  (* class+  or  class+? *)
| Seq (r1 r2 : regex)
| Grp (n : nat) (r : regex)              (* capturing group number n *)
| NotBehind (c : char)                   (* (?<!c) *)
| NotAhead (c : char)                    (* (?!c) *)
| Bol.                                   (* ^ without MULTILINE *)

(** A position in the subject: the text before it (nearest character
    first) and the text after it, with the groups captured so far. *)
Record mstate := MState {
  before : str;
  after : str;
  groups : list (nat * str)
}.

Definition dot (c : char) : bool := negb (c =? newline).
Definition one_of (cs : list char) (c : char) : bool := existsb (N.eqb c) cs.
Definition none_of (cs : list char) (c : char) : bool := negb (one_of cs c).

Fixpoint plus_lazy (p : char -> bool) (b a : str) : list (str * str) :=
  match a with
  | c :: a' => if p c then (c :: b, a') :: plus_lazy p (c :: b) a' else []
  | [] => []
  end.

Fixpoint plus_greedy (p : char -> bool) (b a : str) : list (str * str) :=
  match a with
  | c :: a' => if p c then plus_greedy p (c :: b) a' ++ [(c :: b, a')] else []
  | [] => []
  end.

(** The text between two positions of one subject. *)
Definition span (b b' : str) : str :=
  rev (take (length b' - length b) b').

Fixpoint exec (r : regex) (st : mstate) : list mstate :=
  match r with
  | Chr c =>
      match after st with
      | x :: a' => if x =? c then [MState (x :: before st) a' (groups st)] else []
      | [] => []
      end
  | Cls p =>
      match after st with
      | x :: a' => if p x then [MState (x :: before st) a' (groups st)] else []
      | [] => []
      end
  | Plus greedy p =>
      List.map (fun ba => MState (fst ba) (snd ba) (groups st))
        ((if greedy then plus_greedy else plus_lazy) p (before st) (after st))
  | Seq r1 r2 => List.flat_map (exec r2) (exec r1 st)
  | Grp n r =>
      List.map (fun st' => MState (before st') (after st')
                             ((n, span (before st) (before st')) :: groups st'))
        (exec r st)
  | NotBehind c =>
      match before st with
      | x :: _ => if x =? c then [] else [st]
      | [] => [st]
      end
  | NotAhead c =>
      match after st with
      | x :: _ => if x =? c then [] else [st]
      | [] => [st]
      end
  | Bol => match before st with [] => [st] | _ :: _ => [] end
  end.

(** The match found when the matcher is started at one position. *)
Definition match_at (r : regex) (b a : str) : option mstate :=
  head (exec r (MState b a [])).

(** [re.match(r, s)]: a match at the start of [s]. *)
Definition re_match (r : regex) (s : str) : option mstate := match_at r [] s.

(** [m.group(n)] *)
Fixpoint group (n : nat) (gs : list (nat * str)) : str :=
  match gs with
  | (k, v) :: gs' => if Nat.eqb k n then v else group n gs'
  | [] => []
  end.

(** A replacement template: literal text and back-references. *)
Inductive titem := Lit (s : str) | Ref (n : nat).

Definition expand (tpl : list titem) (m : mstate) : str :=
  List.flat_map (fun t => match t with Lit s => s | Ref n => group n (groups m) end) tpl.

(** [re.sub(r, tpl, s)]: scan left to right, replace every non-overlapping
    match.  [skip] counts the characters of the last match that the scan
    still has to pass.  Every pattern of the script consumes at least one
    character ([script_patterns_consume] below), so the rules of [re.sub] for empty
    matches never come into play and are not modelled. *)
Fixpoint sub_loop (r : regex) (tpl : list titem) (skip : nat) (b a : str) : str :=
  match a with
  | [] => []
  | c :: a' =>
      match skip with
      | S n => sub_loop r tpl n (c :: b) a'
      | O =>
          match match_at r b a with
          | Some m =>
              expand tpl m ++ sub_loop r tpl (length (before m) - length b - 1) (c :: b) a'
          | None => c :: sub_loop r tpl 0 (c :: b) a'
          end
      end
  end.

Definition sub (r : regex) (tpl : list titem) (s : str) : str := sub_loop r tpl 0 [] s.

Infix "--" := Seq (at level 60, right associativity).

End Re.
Import Re.

(** ** class MarkdownParser *)
Module MarkdownParser.

Inductive list_type := ul | ol.

(** The dictionaries that [parse] builds, by their ["type"] entry; [Li]
    carries ["text"] and ["list_type"], the others but [Empty] carry
    ["text"]. *)
Inductive Element :=
| Empty
| H1 (text : str)
| H2 (text : str)
| H3 (text : str)
| Li (text : str) (kind : list_type)
| Par (text : str).

(** [__init__]: [self.lines = content.split('\n')] *)
Definition lines_of (content : str) : list str := split newline content.

(** [^[\*\-]\s+] and [^\d+\.\s+] *)
Definition ul_marker : regex := Bol -- Cls (one_of [42; 45]) -- Plus true is_space.
Definition ol_marker : regex := Bol -- Plus true is_decimal -- Chr 46 -- Plus true is_space.

(** The body of the loop of [parse] after [line = self.lines[i].rstrip()]:
    a chain of tests, each of which appends one element, increments [i]
    and continues.  This is the element appended for [line]. *)
Definition element_of (line : str) : Element :=
  match line with
  | [] => Empty
  | _ :: _ =>
      if startswith (u "# ") line then H1 (strip (drop 2 line))
      else if startswith (u "## ") line then H2 (strip (drop 3 line))
      else if startswith (u "### ") line then H3 (strip (drop 4 line))
      else if bool_decide (is_Some (re_match ul_marker line))
           then Li (sub ul_marker [] line) ul
      else if bool_decide (is_Some (re_match ol_marker line))
           then Li (sub ol_marker [] line) ol
      else Par line
  end.

(** [while i < len(self.lines): ...; i += 1] *)
Equations? parse_loop (lines : list str) (i : nat) (elements : list Element)
  : list Element by wf (length lines - i)%nat lt :=
  parse_loop lines i elements with decide (i < length lines)%nat := {
    | left _ =>
        parse_loop lines (S i) (elements ++ [element_of (rstrip (nth i lines []))]);
    | right _ => elements }.
Proof. lia. Qed.

Definition parse (content : str) : list Element :=
  parse_loop (lines_of content) 0 [].

(** The five patterns of [process_inline], in the order of the source, with
    their replacement templates. *)
Definition strong_re : regex :=
  Chr 42 -- Chr 42 -- Grp 1 (Plus false dot) -- Chr 42 -- Chr 42.
Definition em_re : regex :=
  NotBehind 42 -- Chr 42 -- NotAhead 42 -- Grp 1 (Plus false dot)
  -- NotBehind 42 -- Chr 42 -- NotAhead 42.
Definition strike_re : regex :=
  Chr 126 -- Chr 126 -- Grp 1 (Plus false dot) -- Chr 126 -- Chr 126.
Definition link_re : regex :=
  Chr 91 -- Grp 1 (Plus true (none_of [93])) -- Chr 93
  -- Chr 40 -- Grp 2 (Plus true (none_of [41])) -- Chr 41.
Definition code_re : regex :=
  Chr 96 -- Grp 1 (Plus true (none_of [96])) -- Chr 96.

Definition strong_tpl : list titem := [Lit (u "<strong>"); Ref 1; Lit (u "</strong>")].
Definition em_tpl : list titem := [Lit (u "<em>"); Ref 1; Lit (u "</em>")].
Definition strike_tpl : list titem := [Lit (u "<s>"); Ref 1; Lit (u "</s>")].
Definition link_tpl : list titem :=
  [Lit (u "<a href=" ++ [34]); Ref 2; Lit ([34] ++ u ">"); Ref 1; Lit (u "</a>")].
Definition code_tpl : list titem := [Lit (u "<code>"); Ref 1; Lit (u "</code>")].

Definition process_inline (text : str) : str :=
  let text := sub strong_re strong_tpl text in
  let text := sub em_re em_tpl text in
  let text := sub strike_re strike_tpl text in
  let text := sub link_re link_tpl text in
  let text := sub code_re code_tpl text in
  text.

End MarkdownParser.
Import MarkdownParser.

(** ** class HTMLGenerator *)
Module HTMLGenerator.

Definition tag_of_list (k : list_type) : str :=
  match k with ul => u "ul" | ol => u "ol" end.

(** The markup appended to [html_body] for one element. *)
Definition markup (elem : Element) : str :=
  let block (elem_type text : str) :=
    u "<" ++ elem_type ++ u ">" ++ process_inline text ++ u "</" ++ elem_type ++ u ">" in
  match elem with
  | Empty => u "<p>&nbsp;</p>"
  | Li text k =>
      u "<" ++ tag_of_list k ++ u "><li>" ++ process_inline text
      ++ u "</li></" ++ tag_of_list k ++ u ">"
  | H1 text => block (u "h1") text
  | H2 text => block (u "h2") text
  | H3 text => block (u "h3") text
  | Par text => block (u "p") text
  end.

(** [html_body = []; for elem in elements: html_body.append(...)] *)
Definition html_body (elements : list Element) : list str :=
  fold_left (fun body elem => body ++ [markup elem]) elements [].

Definition document_head : list str :=
  [u "<!DOCTYPE html>"; u "<html>"; u "<head>";
   u "    <meta charset=" ++ [34] ++ u "utf-8" ++ [34] ++ u ">";
   u "    <style>"; u "        body {";
   u "            margin: 2cm 2cm 2cm 2cm;"; u "        }"].

(** [generate], with the text [css] that [self.generate_css()] returned
    ([generate_css] prints floats with [%g] and is not embedded). *)
Definition generate (css : str) (elements : list Element) : str :=
  join [newline]
    (document_head ++
     [css; u "    </style>"; u "</head>"; u "<body>";
      concat (html_body elements); u "</body>"; u "</html>"]).

End HTMLGenerator.
Import HTMLGenerator.

(** ** Style configuration *)
Module Style.

(** A [float]-annotated field holds either an [int] literal of the source
    or the result of [float(s)]; the binary value of the latter is not
    computed, only which literal it was read from. *)
Inductive number := Int (z : Z) | Float (literal : str).

Record FontConfig := { family : str; size : number }.

Record ParagraphConfig := {
  line_spacing : number;
  space_before : number;
  space_after : number;
  align : str;
  first_line_indent : number
}.

Record ElementStyle := {
  name : str;
  font : FontConfig;
  paragraph : ParagraphConfig
}.

Definition heiti : str := [40657; 20307].
Definition fangsong : str := [20223; 23435] ++ u "_GB2312".
Definition title (n : char) : str := [n; 32423; 26631; 39064].
Definition body_text : str := [27491; 25991].
Definition list_name : str := [21015; 34920].

Definition default_h1 : ElementStyle :=
  {| name := title 19968;
     font := {| family := heiti; size := Int 16 |};
     paragraph := {| line_spacing := Int 30; space_before := Int 0;
                     space_after := Int 12; align := u "center";
                     first_line_indent := Int 0 |} |}.
Definition default_h2 : ElementStyle :=
  {| name := title 20108;
     font := {| family := heiti; size := Int 16 |};
     paragraph := {| line_spacing := Int 30; space_before := Int 12;
                     space_after := Int 12; align := u "left";
                     first_line_indent := Int 0 |} |}.
Definition default_h3 : ElementStyle :=
  {| name := title 19977;
     font := {| family := heiti; size := Int 16 |};
     paragraph := {| line_spacing := Int 28; space_before := Int 6;
                     space_after := Int 6; align := u "left";
                     first_line_indent := Int 0 |} |}.
Definition default_p : ElementStyle :=
  {| name := body_text;
     font := {| family := fangsong; size := Int 16 |};
     paragraph := {| line_spacing := Int 28; space_before := Int 0;
                     space_after := Int 0; align := u "justify";
                     first_line_indent := Int 2 |} |}.
Definition default_li : ElementStyle :=
  {| name := list_name;
     font := {| family := fangsong; size := Int 16 |};
     paragraph := {| line_spacing := Int 28; space_before := Int 0;
                     space_after := Int 0; align := u "justify";
                     first_line_indent := Int 0 |} |}.

Definition DEFAULT_STYLES : gmap string ElementStyle :=
  <["li" := default_li]> (<["p" := default_p]> (<["h3" := default_h3]>
    (<["h2" := default_h2]> (<["h1" := default_h1]> ∅)))).

End Style.
Import Style.

(** ** The built-in [float(s)] on a [str]

    Which strings CPython accepts ([float_from_string]): decimal digits of
    any script become ASCII digits and whitespace becomes a blank, blanks
    are stripped at both ends, single underscores may stand between
    digits, and what is left must be, as a whole, a signed decimal
    literal with optional fraction and exponent, or [inf], [infinity] or
    [nan] in any case. *)
Module PyFloat.

Definition ascii_digit (c : char) : bool := (48 <=? c) && (c <=? 57).
Definition c_space (c : char) : bool := ((9 <=? c) && (c <=? 13)) || (c =? 32).

Definition to_ascii (c : char) : char :=
  if c <? 128 then c
  else if is_space c then 32
  else if is_decimal c then 48
  else 63.

Fixpoint lstrip_c (s : str) : str :=
  match s with
  | c :: s' => if c_space c then lstrip_c s' else s
  | [] => []
  end.

(** The trailing strip keeps one character at least. *)
Definition rstrip_c (s : str) : str :=
  match s with
  | [] => []
  | c :: s' => c :: rev (lstrip_c (rev s'))
  end.

(** [_Py_string_to_number_with_underscores]: [None] when an underscore is
    not between two digits. *)
Fixpoint drop_underscores (prev : char) (s : str) : option str :=
  match s with
  | [] => if prev =? 95 then None else Some []
  | c :: s' =>
      if c =? 95 then
        if ascii_digit prev then drop_underscores c s' else None
      else if (prev =? 95) && negb (ascii_digit c) then None
      else option_map (cons c) (drop_underscores c s')
  end.

Fixpoint skip_digits (s : str) : str :=
  match s with
  | c :: s' => if ascii_digit c then skip_digits s' else s
  | [] => []
  end.

Definition skip_sign (s : str) : str :=
  match s with
  | c :: s' => if (c =? 43) || (c =? 45) then s' else s
  | [] => []
  end.

(** The exponent part, if well formed, else nothing of it is read. *)
Definition skip_exponent (s : str) : str :=
  match s with
  | c :: s' =>
      if (c =? 101) || (c =? 69) then
        let d := skip_sign s' in
        if (length (skip_digits d) <? length d)%nat then skip_digits d else s
      else s
  | [] => []
  end.

(** What [_Py_dg_strtod] leaves unread, [None] when it reads no number. *)
Definition after_decimal (s : str) : option str :=
  let s1 := skip_sign s in
  let s2 := skip_digits s1 in
  let s3 := match s2 with
            | 46 :: t => skip_digits t
            | _ => s2
            end in
  let n_digits :=
    match s2 with
    | 46 :: t => (length s1 - length s2 + (length t - length s3))%nat
    | _ => (length s1 - length s2)%nat
    end in
  if (0 <? n_digits)%nat then Some (skip_exponent s3) else None.

(** What [_Py_parse_inf_or_nan] leaves unread. *)
Definition after_inf_or_nan (s : str) : option str :=
  let s1 := lower (skip_sign s) in
  if startswith (u "inf") s1 then
    Some (if startswith (u "inity") (drop 3 s1) then drop 8 s1 else drop 3 s1)
  else if startswith (u "nan") s1 then Some (drop 3 s1)
  else None.

Definition is_float_literal (s : str) : bool :=
  let s := rstrip_c (lstrip_c (List.map to_ascii s)) in
  match (if bool_decide (95 ∈ s) then drop_underscores 0 s else Some s) with
  | None => false
  | Some s =>
      match after_decimal s with
      | Some rest => bool_decide (rest = [])
      | None =>
          match after_inf_or_nan s with
          | Some rest => bool_decide (rest = [])
          | None => false
          end
      end
  end.

(** [float(s)]: [None] stands for [ValueError]. *)
Definition float (s : str) : option number :=
  if is_float_literal s then Some (Float s) else None.

End PyFloat.
Import PyFloat.

(** ** Prompts, conversion and the command line *)
Module Cli.

Inductive exn := EOFError | ValueError | OSError | SystemExit (code : Z).

Inductive result (A : Type) := Ok (a : A) | Raise (e : exn).
Arguments Ok {A} a.
Arguments Raise {A} e.

(** A computation that may read lines of standard input: it is given the
    lines not read yet and returns those it leaves.  What [print] writes
    is not part of the model. *)
Definition IO (A : Type) : Type := list str -> result A * list str.

Definition ret {A} (a : A) : IO A := fun stdin => (Ok a, stdin).

Definition raise {A} (e : exn) : IO A := fun stdin => (Raise e, stdin).

Definition bind {A B} (m : IO A) (k : A -> IO B) : IO B :=
  fun stdin =>
    match m stdin with
    | (Ok a, rest) => k a rest
    | (Raise e, rest) => (Raise e, rest)
    end.

Notation "'let*' x ':=' m 'in' k" := (bind m (fun x => k))
  (at level 10, x name, m at level 100, k at level 200).

Definition lift {A} (r : result A) : IO A := fun stdin => (r, stdin).

(** [input(prompt)]: the next line, [EOFError] at the end of the input. *)
Definition input : IO str :=
  fun stdin =>
    match stdin with
    | [] => (Raise EOFError, [])
    | line :: rest => (Ok line, rest)
    end.

(** [try: body  except EOFError: handler] *)
Definition except_EOFError {A} (body handler : IO A) : IO A :=
  fun stdin =>
    match body stdin with
    | (Raise EOFError, rest) => handler rest
    | outcome => outcome
    end.

Definition yes_words : list str := [u "y"; u "yes"; [26159]; u "y"].
Definition no_words : list str := [u "n"; u "no"; [21542]; u "n"].

(** [ask_yes_no]: the loop reads a line per turn, so it is a recursion on
    the lines left. *)
Fixpoint ask_yes_no (default : bool) (stdin : list str) : result bool * list str :=
  match stdin with
  | [] => (Ok default, [])
  | line :: rest =>
      let response := lower (strip line) in
      match response with
      | [] => (Ok default, rest)
      | _ :: _ =>
          if bool_decide (response ∈ yes_words) then (Ok true, rest)
          else if bool_decide (response ∈ no_words) then (Ok false, rest)
          else ask_yes_no default rest
      end
  end.

(** [input(...).strip() or default] *)
Definition answer (default line : str) : str :=
  match strip line with
  | [] => default
  | c :: s => c :: s
  end.

Definition prompt (default : str) : IO str :=
  let* line := input in ret (answer default line).

Definition to_float (s : str) : IO number :=
  match float s with
  | Some x => ret x
  | None => raise ValueError
  end.

Definition ask_style_config : IO (gmap string ElementStyle) :=
  except_EOFError
    (let* h1_font := prompt heiti in
     let* h1_size := prompt (u "16") in
     let* h1_align := prompt (u "center") in
     let* h1_ls := prompt (u "30") in
     let* h1_sa := prompt (u "12") in
     let* h1_size := to_float h1_size in
     let* h1_ls := to_float h1_ls in
     let* h1_sa := to_float h1_sa in
     let styles : gmap string ElementStyle :=
       <["h1" := {| name := title 19968;
                    font := {| family := h1_font; size := h1_size |};
                    paragraph := {| line_spacing := h1_ls; space_before := Int 0;
                                    space_after := h1_sa; align := h1_align;
                                    first_line_indent := Int 0 |} |}]> ∅ in
     let* h2_font := prompt heiti in
     let* h2_size := prompt (u "16") in
     let* h2_align := prompt (u "left") in
     let* h2_ls := prompt (u "30") in
     let* h2_sa := prompt (u "12") in
     let* h2_size := to_float h2_size in
     let* h2_ls := to_float h2_ls in
     let* h2_sa := to_float h2_sa in
     let styles :=
       <["h2" := {| name := title 20108;
                    font := {| family := h2_font; size := h2_size |};
                    paragraph := {| line_spacing := h2_ls; space_before := Int 12;
                                    space_after := h2_sa; align := h2_align;
                                    first_line_indent := Int 0 |} |}]> styles in
     let* p_font := prompt fangsong in
     let* p_size := prompt (u "16") in
     let* p_align := prompt (u "justify") in
     let* p_ls := prompt (u "28") in
     let* p_indent := prompt (u "2") in
     let* p_size := to_float p_size in
     let* p_ls := to_float p_ls in
     let* p_indent := to_float p_indent in
     let styles :=
       <["p" := {| name := body_text;
                   font := {| family := p_font; size := p_size |};
                   paragraph := {| line_spacing := p_ls; space_before := Int 0;
                                   space_after := Int 0; align := p_align;
                                   first_line_indent := p_indent |} |}]> styles in
     (* styles["h3"] = DEFAULT_STYLES["h3"]; styles["li"] = DEFAULT_STYLES["li"] *)
     let styles := <["h3" := default_h3]> styles in
     let styles := <["li" := default_li]> styles in
     ret styles)
    (ret DEFAULT_STYLES).

(** What the script takes from outside: whether pywin32 is installed,
    COM automation, the file system, [pathlib] and [os.path], and the
    text of the style rules ([generate_css], which prints floats with
    [%g]). *)
Record World := {
  win32com_importable : bool;         (* import win32com.client does not raise *)
  dispatch_ok : string -> bool;       (* win32com.client.Dispatch(prog_id) returns *)
  automation_ok : str -> str -> bool; (* Open, PageSetup, SaveAs2, Close, Quit all return *)
  path_exists : str -> bool;
  read_text : str -> option str;      (* None: open or read raises *)
  write_text : str -> str -> bool;    (* false: open or write raises *)
  startfile_ok : str -> bool;
  abspath : str -> str;
  html_path_of : str -> str;          (* parent / (stem + ".html") *)
  docx_path_of : str -> str;          (* parent / (stem + ".docx") *)
  generate_css : gmap string ElementStyle -> str
}.

Definition WORD_PROG_IDS : list string :=
  ["Word.Application"; "Word.Application.16"; "Word.Application.15";
   "Word.Application.14"]%string.

Definition WPS_PROG_IDS : list string := ["WPS.Application"; "KWps.Application"]%string.

(** [AppDetector.detect_app] *)
Definition detect_app (w : World) : option string * string :=
  match List.find (dispatch_ok w) WORD_PROG_IDS with
  | Some prog_id => (Some prog_id, "Word"%string)
  | None =>
      match List.find (dispatch_ok w) WPS_PROG_IDS with
      | Some prog_id => (Some prog_id, "WPS"%string)
      | None => (None, "None"%string)
      end
  end.

(** [DocumentConverter.html_to_docx]: every exception raised inside the
    [try] is turned into [False]. *)
Definition html_to_docx (w : World) (html_path docx_path : str) : bool :=
  match fst (detect_app w) with
  | None => false
  | Some prog_id =>
      dispatch_ok w prog_id && automation_ok w (abspath w html_path) (abspath w docx_path)
  end.

Definition convert_md_to_word (w : World) (md_path : str)
    (styles : gmap string ElementStyle) : result (option str) :=
  if negb (path_exists w md_path) then Ok None
  else
    match read_text w md_path with
    | None => Raise OSError
    | Some md_content =>
        let elements := parse md_content in
        let html_content := generate (generate_css w styles) elements in
        let html_path := html_path_of w md_path in
        if negb (write_text w html_path html_content) then Raise OSError
        else
          let docx_path := docx_path_of w md_path in
          if html_to_docx w html_path docx_path
          then Ok (Some (abspath w docx_path))
          else Ok None
    end.

(** [if result_path:] *)
Definition truthy (result_path : option str) : bool :=
  match result_path with
  | Some (_ :: _) => true
  | _ => false
  end.

Definition startfile (w : World) (result_path : option str) : IO unit :=
  match result_path with
  | Some path => if startfile_ok w path then ret tt else raise OSError
  | None => raise OSError
  end.

Definition interactive_mode (w : World) (md_path : str) : IO unit :=
  let '(_, app_name) := detect_app w in
  let* use_default := ask_yes_no true in
  let* styles := (if use_default : bool then ret DEFAULT_STYLES else ask_style_config) in
  let* result_path := lift (convert_md_to_word w md_path styles) in
  if truthy result_path then
    let* open_it := ask_yes_no false in
    if open_it : bool then startfile w result_path else ret tt
  else ret tt.

Record Args := {
  md_file : option str;
  output : option str;
  no_prompt : bool;
  open_flag : bool;
  check_app : bool
}.

Definition main (w : World) (args : Args) : IO unit :=
  if check_app args then
    let '(_, app_name) := detect_app w in ret tt
  else
    match md_file args with
    | None | Some [] => raise (SystemExit 1)
    | Some md_path =>
        if no_prompt args then
          let* result_path := lift (convert_md_to_word w md_path DEFAULT_STYLES) in
          if truthy result_path then
            if open_flag args then startfile w result_path else ret tt
          else raise (SystemExit 1)
        else interactive_mode w md_path
    end.

(** The module run as a script: the [try: import win32com.client ...
    except ImportError: ... sys.exit(1)] of its first lines, then, under
    [if __name__ == '__main__'], [main()]. *)
Definition script (w : World) (args : Args) : IO unit :=
  if win32com_importable w then main w args else raise (SystemExit 1).

(** The exit status of the process: [0] when the script runs to its end,
    the code of [sys.exit], and [1] for an exception nobody catches. *)
Definition exit_status (outcome : result unit) : Z :=
  match outcome with
  | Ok _ => 0
  | Raise (SystemExit code) => code
  | Raise _ => 1
  end.

Definition run (w : World) (args : Args) (stdin : list str) : Z :=
  exit_status (fst (script w args stdin)).

End Cli.
Import Cli.

(** * Vocabulary of the statements *)

(** A line of whitespace only. *)
Definition blank (s : str) : Prop := Forall (fun c => is_space c = true) s.

(** The element that [parse] appends for one line of the input. *)
Definition element_of_line (line : str) : Element := element_of (rstrip line).

(** The character a pattern needs first, when its first consuming piece is
    a literal. *)
Fixpoint opener (r : regex) : option char :=
  match r with
  | Chr c => Some c
  | Seq (NotBehind _) r2 | Seq (NotAhead _) r2 | Seq Bol r2 => opener r2
  | Seq r1 _ => opener r1
  | Grp _ r => opener r
  | _ => None
  end.

(** Where a match ends: the number of characters of the subject before
    the position. *)
Definition pos (st : mstate) : nat := length (before st).

(** Every match of [r] is at least [min_width r] characters long. *)
Fixpoint min_width (r : regex) : nat :=
  match r with
  | Chr _ | Cls _ | Plus _ _ => 1
  | Seq r1 r2 => min_width r1 + min_width r2
  | Grp _ r => min_width r
  | NotBehind _ | NotAhead _ | Bol => 0
  end.

(** Each number is less than all that follow it. *)
Fixpoint increasing (l : list nat) : Prop :=
  match l with
  | [] => True
  | x :: l' => Forall (lt x) l' /\ increasing l'
  end.


(** [r] has at most one way to match at a position. *)
Definition at_most_one (r : regex) : Prop :=
  forall st, (length (exec r st) <= 1)%nat.


(** The keys of a style set. *)
Definition style_keys : list string := ["h1"; "h2"; "h3"; "p"; "li"]%string.

(** The prompts of [ask_style_config], numbered from 0 in the order they
    are asked, whose answer goes through [float]: size, line spacing and
    the last one of each group of five. *)
Definition numeric_prompt (i : nat) : bool :=
  ((i <? 15) && ((i mod 5 =? 1) || (i mod 5 =? 3) || (i mod 5 =? 4)))%nat.

(** A blank answer, or one that [float] accepts once stripped. *)
Definition float_ok (line : str) : bool :=
  match strip line with
  | [] => true
  | c :: s => is_float_literal (c :: s)
  end.

(** The same for the answers to the prompts from number [i] on. *)
Fixpoint numeric_ok_from (i : nat) (stdin : list str) : bool :=
  match stdin with
  | [] => true
  | line :: rest =>
      (negb (numeric_prompt i) || float_ok line) && numeric_ok_from (S i) rest
  end.

(** Every answer given to a numeric prompt is blank or a float literal. *)
Definition numeric_ok (stdin : list str) : bool := numeric_ok_from 0 stdin.

(** Fifteen answers and one line more. *)
Definition sample_answers : list str :=
  [u "SimHei"; u " 22 "; []; u "1e1"; u "12";
   []; u "16.5"; u "left"; []; [];
   u "FangSong"; []; []; u "2_8"; u ".5"; u "y"].

(** A machine with pywin32 but no word processor, no files and no
    input. *)
Definition bare_world : World :=
  {| win32com_importable := true;
     dispatch_ok := fun _ => false;
     automation_ok := fun _ _ => false;
     path_exists := fun _ => false;
     read_text := fun _ => None;
     write_text := fun _ _ => false;
     startfile_ok := fun _ => false;
     abspath := fun path => path;
     html_path_of := fun path => path ++ u ".html";
     docx_path_of := fun path => path ++ u ".docx";
     generate_css := fun _ => [] |}.

(** The text an element carries. *)
Definition text_of (e : Element) : option str :=
  match e with
  | Empty => None
  | H1 text | H2 text | H3 text | Li text _ | Par text => Some text
  end.

(** Paragraphs, as opposed to headings, list items and blank lines. *)
Definition is_paragraph (e : Element) : bool :=
  match e with Par _ => true | _ => false end.

(** The class of the greedy run a pattern ends with. *)
Fixpoint last_run (r : regex) : option (char -> bool) :=
  match r with
  | Plus true p => Some p
  | Seq _ r2 => last_run r2
  | _ => None
  end.

(** A text with none of the characters the inline rules react to. *)
Definition plain (s : str) : bool := forallb (none_of [42; 126; 91; 96]) s.

(** The state after a group around a run. *)
Definition grp_state (n : nat) (st : mstate) (ba : str * str) : mstate :=
  MState ba.1 ba.2 ((n, span (before st) ba.1) :: groups st).

(** A line [ask_yes_no] takes for an answer: blank, or a yes or no word
    once stripped and lowered. *)
Definition recognised (line : str) : bool :=
  match lower (strip line) with
  | [] => true
  | c :: s =>
      bool_decide ((c :: s) ∈ yes_words) || bool_decide ((c :: s) ∈ no_words)
  end.

(** A machine with Word installed, on which every file exists and holds
    one heading, and every operation succeeds. *)
Definition office_world : World :=
  {| win32com_importable := true;
     dispatch_ok := fun prog_id => String.eqb prog_id "Word.Application";
     automation_ok := fun _ _ => true;
     path_exists := fun _ => true;
     read_text := fun _ => Some (u "# Title");
     write_text := fun _ _ => true;
     startfile_ok := fun _ => true;
     abspath := fun path => u "C:/" ++ path;
     html_path_of := fun path => path ++ u ".html";
     docx_path_of := fun path => path ++ u ".docx";
     generate_css := fun _ => [] |}.

(** The same machine without pywin32. *)
Definition without_pywin32 (w : World) : World :=
  {| win32com_importable := false;
     dispatch_ok := dispatch_ok w;
     automation_ok := automation_ok w;
     path_exists := path_exists w;
     read_text := read_text w;
     write_text := write_text w;
     startfile_ok := startfile_ok w;
     abspath := abspath w;
     html_path_of := html_path_of w;
     docx_path_of := docx_path_of w;
     generate_css := generate_css w |}.




(** * Facts about the string primitives *)
Section StringFacts.

Implicit Types (s t : str) (c sep : char).

Lemma split_not_nil sep s : exists piece pieces, split sep s = piece :: pieces.
Proof.
  destruct s as [|c s]; simpl; [eauto|].
  destruct (c =? sep); [eauto|].
  destruct (split sep s); eauto.
Qed.

Lemma split_no_sep sep s : sep ∉ s -> split sep s = [s].
Proof.
  induction s as [|c s IH]; intros Hs; [reflexivity|].
  apply not_elem_of_cons in Hs as [Hc Hs]. simpl.
  destruct (N.eqb_spec c sep) as [->|_]; [done|].
  by rewrite IH.
Qed.

Lemma split_app_sep sep s t :
  sep ∉ s -> split sep (s ++ sep :: t) = s :: split sep t.
Proof.
  induction s as [|c s IH]; intros Hs; simpl.
  - by rewrite N.eqb_refl.
  - apply not_elem_of_cons in Hs as [Hc Hs].
    destruct (N.eqb_spec c sep) as [->|_]; [done|].
    by rewrite IH.
Qed.

Lemma split_snoc sep s : split sep (s ++ [sep]) = split sep s ++ [[]].
Proof.
  induction s as [|c s IH]; simpl.
  - by rewrite N.eqb_refl.
  - destruct (c =? sep); [by rewrite IH|].
    rewrite IH. by destruct (split_not_nil sep s) as (p & ps & ->).
Qed.

Lemma join_cons (glue piece piece' : str) (pieces : list str) :
  join glue (piece :: piece' :: pieces) = piece ++ glue ++ join glue (piece' :: pieces).
Proof. reflexivity. Qed.

Lemma split_join sep (pieces : list str) :
  pieces <> [] -> Forall (fun piece => sep ∉ piece) pieces ->
  split sep (join [sep] pieces) = pieces.
Proof.
  induction pieces as [|piece pieces IH]; [done|]. intros _ Hall.
  apply Forall_cons in Hall as [Hp Hall].
  destruct pieces as [|piece' pieces].
  - by apply split_no_sep.
  - rewrite join_cons. change ([sep] ++ ?t) with (sep :: t).
    rewrite split_app_sep by done. f_equal. by apply IH.
Qed.

Lemma join_split sep s : join [sep] (split sep s) = s.
Proof.
  induction s as [|c s IH]; [reflexivity|].
  cbn [split].
  destruct (split_not_nil sep s) as (p & ps & E). rewrite E in *.
  destruct (N.eqb_spec c sep) as [->|_].
  - rewrite join_cons, IH. reflexivity.
  - destruct ps as [|p' ps].
    + simpl in *. by rewrite IH.
    + rewrite join_cons in *. rewrite <- IH. reflexivity.
Qed.

Lemma split_pieces sep s : Forall (fun piece => sep ∉ piece) (split sep s).
Proof.
  induction s as [|c s IH]; simpl.
  - repeat constructor. apply not_elem_of_nil.
  - destruct (N.eqb_spec c sep) as [->|Hne].
    + constructor; [apply not_elem_of_nil|done].
    + destruct (split sep s) as [|p ps].
      { constructor; [|done]. apply not_elem_of_cons. split; [congruence|apply not_elem_of_nil]. }
      apply Forall_cons in IH as [Hp Hps]. constructor; [|done].
      apply not_elem_of_cons. split; [congruence|done].
Qed.

Lemma lstrip_blank s : blank s -> lstrip s = [].
Proof.
  induction 1 as [|c s Hc _ IH]; [reflexivity|]. simpl. by rewrite Hc.
Qed.

Lemma lstrip_blank_app ws s : blank ws -> lstrip (ws ++ s) = lstrip s.
Proof.
  induction 1 as [|c ws Hc _ IH]; [reflexivity|]. simpl. by rewrite Hc.
Qed.

Lemma lstrip_decomp s : exists ws, blank ws /\ s = ws ++ lstrip s.
Proof.
  induction s as [|c s (ws & Hws & E)]; [exists []; split; [constructor|done]|].
  simpl. destruct (is_space c) eqn:Hc.
  - exists (c :: ws). split; [by constructor|]. simpl. congruence.
  - exists []. split; [constructor|done].
Qed.

Lemma blank_rev s : blank s -> blank (rev s).
Proof. apply Forall_rev. Qed.

Lemma rstrip_blank s : blank s -> rstrip s = [].
Proof. intros H. unfold rstrip. by rewrite lstrip_blank by by apply blank_rev. Qed.

Lemma rstrip_blank_app s ws : blank ws -> rstrip (s ++ ws) = rstrip s.
Proof.
  intros H. unfold rstrip. rewrite rev_app_distr.
  by rewrite lstrip_blank_app by by apply blank_rev.
Qed.

Lemma rstrip_decomp s : exists ws, blank ws /\ s = rstrip s ++ ws.
Proof.
  destruct (lstrip_decomp (rev s)) as (ws & Hws & E).
  exists (rev ws). split; [by apply blank_rev|].
  unfold rstrip. rewrite <- rev_app_distr, <- E. by rewrite rev_involutive.
Qed.

Lemma rstrip_snoc s c : is_space c = false -> rstrip (s ++ [c]) = s ++ [c].
Proof.
  intros Hc. unfold rstrip. rewrite rev_app_distr. simpl.
  rewrite Hc. change (c :: rev s) with (rev [c] ++ rev s).
  by rewrite <- rev_app_distr, rev_involutive.
Qed.

Lemma lstrip_length s : (length (lstrip s) <= length s)%nat.
Proof.
  induction s as [|c s IH]; simpl; [lia|].
  destruct (is_space c); simpl; lia.
Qed.

Lemma rstrip_length s : (length (rstrip s) <= length s)%nat.
Proof.
  unfold rstrip. rewrite length_rev.
  etrans; [apply lstrip_length|]. by rewrite length_rev.
Qed.

(** A text without leading or trailing whitespace is one that [strip]
    leaves alone; then neither [rstrip] nor [lstrip] changes it. *)
Lemma strip_fixed s : strip s = s -> rstrip s = s /\ lstrip s = s.
Proof.
  intros E.
  assert (rstrip s = s) as Er.
  { destruct (rstrip_decomp s) as (ws & _ & D).
    assert (length ws = 0)%nat as Hws.
    { pose proof (lstrip_length (rstrip s)) as L1.
      apply (f_equal length) in D, E. unfold strip in E.
      rewrite length_app in D. lia. }
    destruct ws; [|done]. by rewrite app_nil_r in D. }
  split; [done|]. unfold strip in E. by rewrite Er in E.
Qed.

Lemma rstrip_fixed_last s :
  rstrip s = s -> s <> [] -> exists s' c, s = s' ++ [c] /\ is_space c = false.
Proof.
  intros E Hne. unfold rstrip in E.
  apply (f_equal (@rev char)) in E. rewrite rev_involutive in E.
  destruct (rev s) as [|c r] eqn:Hr.
  { apply (f_equal (@rev char)) in Hr. rewrite rev_involutive in Hr. done. }
  exists (rev r), c. split.
  { apply (f_equal (@rev char)) in Hr. by rewrite rev_involutive in Hr. }
  simpl in E. destruct (is_space c); [|done].
  pose proof (lstrip_length r) as L. apply (f_equal length) in E. simpl in E. lia.
Qed.

Lemma rstrip_app_fixed pre s : rstrip s = s -> s <> [] -> rstrip (pre ++ s) = pre ++ s.
Proof.
  intros E Hne. destruct (rstrip_fixed_last s E Hne) as (s' & c & -> & Hc).
  rewrite app_assoc. by apply rstrip_snoc.
Qed.

Lemma strip_blank_app s ws : blank ws -> strip (s ++ ws) = strip s.
Proof. intros H. unfold strip. by rewrite rstrip_blank_app. Qed.

End StringFacts.

(** * The parser *)
Section ParserFacts.

Implicit Types (content line : str) (lines : list str).

Lemma parse_loop_spec lines i elements :
  parse_loop lines i elements = elements ++ map element_of_line (drop i lines).
Proof.
  funelim (parse_loop lines i elements).
  - match goal with IH : _ = (_ ++ _) ++ _ |- _ => rewrite IH end.
    rewrite <- app_assoc. f_equal.
    destruct (lookup_lt_is_Some_2 lines i l) as [line Hline].
    rewrite (drop_S _ _ _ Hline). simpl.
    by rewrite (nth_lookup_Some _ _ _ _ Hline).
  - rewrite drop_ge by lia. by rewrite app_nil_r.
Qed.

Lemma parse_lines content : parse content = map element_of_line (lines_of content).
Proof. unfold parse. by rewrite parse_loop_spec. Qed.

Lemma lines_of_join lines :
  lines <> [] -> Forall (fun line => newline ∉ line) lines ->
  lines_of (join [newline] lines) = lines.
Proof. apply split_join. Qed.

Lemma element_of_blank line : blank line -> element_of_line line = Empty.
Proof. intros H. unfold element_of_line. by rewrite rstrip_blank. Qed.

Lemma element_of_h3 line :
  startswith (u "### ") (rstrip line) = true ->
  element_of_line line = H3 (strip (drop 4 line)).
Proof.
  intros Hs. unfold element_of_line.
  destruct (rstrip_decomp line) as (ws & Hws & D).
  change (u "### ") with [35; 35; 35; 32] in Hs.
  destruct (rstrip line) as [|c1 [|c2 [|c3 [|c4 rest]]]] eqn:E; cbn [startswith] in Hs;
    try (repeat (apply andb_prop in Hs as [_ Hs]); discriminate Hs).
  repeat match type of Hs with
         | (_ && _) = true =>
             let Hc := fresh "Hc" in
             apply andb_prop in Hs as [Hc Hs]; apply N.eqb_eq in Hc
         end.
  subst c1 c2 c3 c4. rewrite D.
  change (drop 4 _) with (rest ++ ws). rewrite strip_blank_app by done.
  reflexivity.
Qed.

Lemma element_of_h1 T :
  T <> [] -> strip T = T -> element_of_line (u "# " ++ T) = H1 T.
Proof.
  intros Hne HT. destruct (strip_fixed T HT) as [Hr Hl].
  unfold element_of_line. rewrite rstrip_app_fixed by done.
  change (element_of (u "# " ++ T)) with (H1 (strip T)). by rewrite HT.
Qed.

End ParserFacts.

(** * The renderer *)
Section RendererFacts.

Lemma html_body_from (elements : list Element) (body : list str) :
  fold_left (fun body elem => body ++ [markup elem]) elements body
  = body ++ map markup elements.
Proof.
  revert body. induction elements as [|elem elements IH]; intros body; simpl.
  - by rewrite app_nil_r.
  - rewrite IH. by rewrite <- app_assoc.
Qed.

Lemma html_body_map elements : html_body elements = map markup elements.
Proof. apply html_body_from. Qed.

End RendererFacts.

(** * Claims about the parser and the renderer *)

(** C1. For every input text, [parse] yields exactly one element per line
    of the text, in the order of the lines: the lines are the pieces of
    the text between newline characters (joining them with newlines gives
    the text back and no piece holds a newline), and the element at index
    [i] is computed from line [i] alone. *)
Theorem parse_one_element_per_line (content : str) :
  join [newline] (lines_of content) = content /\
  Forall (fun line => newline ∉ line) (lines_of content) /\
  length (parse content) = length (lines_of content) /\
  forall (i : nat) (line : str),
    lines_of content !! i = Some line ->
    parse content !! i = Some (element_of (rstrip line)).
Proof.
  split; [apply join_split|]. split; [apply split_pieces|].
  rewrite parse_lines. split; [apply length_map|].
  intros i line Hline. rewrite list_lookup_fmap, Hline. reflexivity.
Qed.

(** C2, as stated, fails on a line that is the marker followed by
    whitespace only: trailing whitespace is trimmed before the markers are
    tested, and what is left is a paragraph. *)
Lemma h3_marker_alone_is_paragraph :
  startswith (u "### ") (u "### ") = true /\ parse (u "### ") = [Par (u "###")].
Proof. split; reflexivity. Qed.

(** C2, amended. A line whose trailing-whitespace-trimmed form begins with
    the marker [### ] is classified as [h3], never [h1] or [h2], and its
    text is the rest of the line with whitespace trimmed on both sides. *)
Theorem h3_marker_precedence (content : str) (i : nat) (line : str) :
  lines_of content !! i = Some line ->
  startswith (u "### ") (rstrip line) = true ->
  parse content !! i = Some (H3 (strip (drop 4 line))).
Proof.
  intros Hline Hmark.
  rewrite parse_lines, list_lookup_fmap, Hline. simpl.
  by rewrite element_of_h3.
Qed.

Lemma h3_marker_precedence_witness :
  parse (u "### Title") !! 0%nat = Some (H3 (u "Title")).
Proof.
  apply (h3_marker_precedence (u "### Title") 0 (u "### Title")); reflexivity.
Defined.

(** C3, as stated, fails for the empty text: [# ] alone is trimmed to [#]
    and is a paragraph. *)
Lemma h1_empty_text_is_paragraph :
  strip [] = [] /\ parse (u "# " ++ []) = [Par (u "#")].
Proof. split; reflexivity. Qed.

(** C3, amended. For every non-empty text [T] without a newline and
    without leading or trailing whitespace ([T.strip() == T]), parsing
    [# ] followed by [T] yields exactly one element, the [h1] with text
    [T]. *)
Theorem h1_heading_trim (T : str) :
  T <> [] -> strip T = T -> newline ∉ T ->
  parse (u "# " ++ T) = [H1 T].
Proof.
  intros Hne HT Hnl. rewrite parse_lines. unfold lines_of.
  rewrite split_no_sep.
  - cbn [map]. by rewrite element_of_h1.
  - change (u "# " ++ T) with (35 :: 32 :: T).
    rewrite !not_elem_of_cons. done.
Qed.

Lemma h1_heading_trim_witness : parse (u "# " ++ u "Report Title") = [H1 (u "Report Title")].
Proof.
  apply (h1_heading_trim (u "Report Title")); [done|reflexivity|].
  vm_compute. intros H.
  repeat (apply elem_of_cons in H as [H|H]; [discriminate H|]).
  by apply elem_of_nil in H.
Defined.

(** C5. Every run of [N >= 1] blank lines (lines of whitespace only),
    wherever it stands in the input, parses to exactly [N] empty elements
    in place, and each of them is rendered as its own
    [<p>&nbsp;</p>]; nothing is collapsed.  With no lines around the run
    the input is [N] blank lines and nothing else. *)
Theorem blank_lines_preserved (N : nat) (pre blanks post : list str) (css : str) :
  (1 <= N)%nat -> length blanks = N -> Forall blank blanks ->
  Forall (fun line => newline ∉ line) (pre ++ blanks ++ post) ->
  parse (join [newline] (pre ++ blanks ++ post))
    = map element_of_line pre ++ replicate N Empty ++ map element_of_line post /\
  html_body (parse (join [newline] (pre ++ blanks ++ post)))
    = map markup (map element_of_line pre)
      ++ replicate N (u "<p>&nbsp;</p>")
      ++ map markup (map element_of_line post) /\
  generate css (parse (join [newline] (pre ++ blanks ++ post)))
    = join [newline]
        (document_head ++
         [css; u "    </style>"; u "</head>"; u "<body>";
          concat (map markup (map element_of_line pre))
          ++ concat (replicate N (u "<p>&nbsp;</p>"))
          ++ concat (map markup (map element_of_line post));
          u "</body>"; u "</html>"]).
Proof.
  intros HN Hlen Hblank Hnl.
  assert (parse (join [newline] (pre ++ blanks ++ post))
          = map element_of_line pre ++ replicate N Empty ++ map element_of_line post) as Hparse.
  { rewrite parse_lines, lines_of_join; [|destruct pre, blanks; simpl in *; try done; lia|done].
    rewrite !map_app. do 2 f_equal. subst N. clear -Hblank.
    induction Hblank as [|line blanks Hline _ IH]; [reflexivity|].
    simpl. by rewrite element_of_blank, IH. }
  assert (map markup (replicate N Empty) = replicate N (u "<p>&nbsp;</p>")) as Hrep.
  { clear. induction N as [|N IH]; [reflexivity|]. simpl. by rewrite IH. }
  split; [done|].
  assert (html_body (parse (join [newline] (pre ++ blanks ++ post)))
          = map markup (map element_of_line pre)
            ++ replicate N (u "<p>&nbsp;</p>")
            ++ map markup (map element_of_line post)) as Hbody.
  { by rewrite html_body_map, Hparse, !map_app, Hrep. }
  split; [done|].
  unfold generate. by rewrite Hbody, !concat_app.
Qed.

Lemma blank_lines_preserved_witness :
  parse (join [newline] ([u "a"] ++ [[]; [32]; []] ++ [u "b"]))
    = map element_of_line [u "a"] ++ replicate 3 Empty ++ map element_of_line [u "b"].
Proof.
  refine (proj1 (blank_lines_preserved 3 [u "a"] [[]; [32]; []] [u "b"] [] _ _ _ _)).
  - lia.
  - reflexivity.
  - repeat constructor.
  - repeat constructor; vm_compute; intros H;
      repeat (apply elem_of_cons in H as [H|H]; [discriminate H|]);
      by apply elem_of_nil in H.
Defined.

(** C9. [parse] never returns the empty sequence; the empty text yields
    exactly one empty element; and a text that ends in a newline yields,
    after the elements of the text before that newline, one more empty
    element for the empty line after it. *)
Theorem parse_never_empty (content : str) :
  (exists elem rest, parse content = elem :: rest) /\
  parse [] = [Empty] /\
  parse (content ++ [newline]) = parse content ++ [Empty].
Proof.
  split; [|split].
  - rewrite parse_lines. unfold lines_of.
    destruct (split_not_nil newline content) as (piece & pieces & ->).
    simpl. eauto.
  - reflexivity.
  - rewrite !parse_lines. unfold lines_of.
    by rewrite split_snoc, map_app.
Qed.

(** C6. The body markup is one entry per element, in element order; a
    list item is always the complete one-item container of its own list
    type, so two consecutive items give two containers, never one shared
    container; and the body of the document is these entries
    concatenated. *)
Theorem list_items_stand_alone (css : str) (elements : list Element) :
  html_body elements = map markup elements /\
  (forall text, markup (Li text ul)
     = u "<ul><li>" ++ process_inline text ++ u "</li></ul>") /\
  (forall text, markup (Li text ol)
     = u "<ol><li>" ++ process_inline text ++ u "</li></ol>") /\
  (forall text text' k k' rest,
     html_body (Li text k :: Li text' k' :: rest)
     = markup (Li text k) :: markup (Li text' k') :: html_body rest) /\
  generate css elements
    = join [newline]
        (document_head ++
         [css; u "    </style>"; u "</head>"; u "<body>";
          concat (map markup elements); u "</body>"; u "</html>"]).
Proof.
  split; [apply html_body_map|].
  split; [reflexivity|]. split; [reflexivity|].
  split; [intros; by rewrite !html_body_map|].
  unfold generate. by rewrite html_body_map.
Qed.

(** The scenario of the specification, line by line. *)
Example end_to_end_scenario :
  parse (join [newline]
           [u "# Report Title"; []; u "## Section One";
            u "This is **bold** and *italic* text.";
            u "- first item"; u "- second item"])
  = [H1 (u "Report Title"); Empty; H2 (u "Section One");
     Par (u "This is **bold** and *italic* text.");
     Li (u "first item") ul; Li (u "second item") ul] /\
  concat (html_body [Par (u "This is **bold** and *italic* text.");
                     Li (u "first item") ul; Li (u "second item") ul])
  = u "<p>This is <strong>bold</strong> and <em>italic</em> text.</p>"
    ++ u "<ul><li>first item</li></ul><ul><li>second item</li></ul>".
Proof. split; reflexivity. Qed.

(** * The matcher *)
Section MatcherFacts.

Implicit Types (r : regex) (st : mstate) (b a s : str) (d c : char).

Lemma exec_seq r1 r2 st : exec (r1 -- r2) st = List.flat_map (exec r2) (exec r1 st).
Proof. reflexivity. Qed.

Lemma exec_opener r d st :
  opener r = Some d -> head (after st) <> Some d -> exec r st = [].
Proof.
  revert st. induction r as [c|p|g p|r1 IH1 r2 IH2|n r IH|c|c|]; intros st Hop Hd;
    try discriminate Hop.
  - injection Hop as ->. simpl.
    destruct (after st) as [|x a']; [done|].
    destruct (N.eqb_spec x d) as [->|_]; done.
  - assert (forall st', exec r1 st = [] \/ exec r1 st = [st] ->
                        opener r2 = Some d -> exec (Seq r1 r2) st = []) as Hlook.
    { intros _ [E|E] Hop2; rewrite exec_seq, E; simpl; [done|].
      by rewrite IH2, app_nil_r. }
    destruct r1;
      try (rewrite exec_seq, (IH1 st Hop Hd); reflexivity);
      try discriminate Hop.
    + apply (Hlook st); [|done]. simpl.
      destruct (before st) as [|x ?]; [by right|]. destruct (x =? c); auto.
    + apply (Hlook st); [|done]. simpl.
      destruct (after st) as [|x ?]; [by right|]. destruct (x =? c); auto.
    + apply (Hlook st); [|done]. simpl.
      destruct (before st); auto.
  - simpl in *. by rewrite IH.
Qed.

Lemma sub_loop_no_opener r tpl d b a :
  opener r = Some d -> d ∉ a -> sub_loop r tpl 0 b a = a.
Proof.
  intros Hop. revert b. induction a as [|c a IH]; intros b Hd; [reflexivity|].
  apply not_elem_of_cons in Hd as [Hc Hd]. simpl.
  unfold match_at. rewrite (exec_opener r d) by (simpl; congruence || done).
  simpl. by rewrite IH.
Qed.

Lemma sub_no_opener r tpl d s : opener r = Some d -> d ∉ s -> sub r tpl s = s.
Proof. apply sub_loop_no_opener. Qed.

Lemma plus_lazy_pos p b a ba :
  ba ∈ plus_lazy p b a -> (length b + 1 <= length (fst ba))%nat.
Proof.
  revert b. induction a as [|c a IH]; intros b; simpl; [by intros ?%elem_of_nil|].
  destruct (p c); [|by intros ?%elem_of_nil].
  intros [->|H]%elem_of_cons; [simpl; lia|].
  apply IH in H. simpl in H. lia.
Qed.

Lemma plus_greedy_pos p b a ba :
  ba ∈ plus_greedy p b a -> (length b + 1 <= length (fst ba))%nat.
Proof.
  revert b. induction a as [|c a IH]; intros b; simpl; [by intros ?%elem_of_nil|].
  destruct (p c); [|by intros ?%elem_of_nil].
  intros [H|H]%elem_of_app.
  - apply IH in H. simpl in H. lia.
  - apply list_elem_of_singleton in H as ->. simpl. lia.
Qed.

Ltac pos_lia := unfold pos, str, char in *; simpl in *; lia.

Lemma exec_min_width r st st' :
  st' ∈ exec r st -> (pos st + min_width r <= pos st')%nat.
Proof.
  unfold pos. revert st st'.
  induction r as [c|p|g p|r1 IH1 r2 IH2|n r IH|c|c|]; intros st st'; simpl.
  - destruct (after st) as [|x a']; [by intros ?%elem_of_nil|].
    destruct (x =? c); [|by intros ?%elem_of_nil].
    intros ->%list_elem_of_singleton. simpl. pos_lia.
  - destruct (after st) as [|x a']; [by intros ?%elem_of_nil|].
    destruct (p x); [|by intros ?%elem_of_nil].
    intros ->%list_elem_of_singleton. simpl. pos_lia.
  - intros (ba & -> & H)%list_elem_of_fmap. simpl.
    destruct g; [apply plus_greedy_pos in H|apply plus_lazy_pos in H]; exact H.
  - intros (st1 & H1 & H2)%list_elem_of_In%in_flat_map.
    apply list_elem_of_In, IH1 in H1. apply list_elem_of_In, IH2 in H2. pos_lia.
  - intros (st1 & -> & H)%list_elem_of_fmap. simpl. by apply IH.
  - intros H. assert (st' = st) as ->; [|pos_lia].
    destruct (before st) as [|x ?]; [|destruct (x =? c)];
      (by apply elem_of_nil in H) || by apply list_elem_of_singleton in H.
  - intros H. assert (st' = st) as ->; [|pos_lia].
    destruct (after st) as [|x ?]; [|destruct (x =? c)];
      (by apply elem_of_nil in H) || by apply list_elem_of_singleton in H.
  - intros H. assert (st' = st) as ->; [|pos_lia].
    destruct (before st) as [|x ?];
      (by apply elem_of_nil in H) || by apply list_elem_of_singleton in H.
Qed.

(** The patterns the script hands to [re.sub]: none can match the empty
    string, which is what [sub_loop] relies on. *)
Lemma script_patterns_consume r b a m :
  r ∈ [ul_marker; ol_marker; strong_re; em_re; strike_re; link_re; code_re] ->
  match_at r b a = Some m -> (length b < length (before m))%nat.
Proof.
  intros Hr Hm. unfold match_at in Hm.
  assert (m ∈ exec r (MState b a [])) as Hin.
  { destruct (exec r (MState b a [])); [done|]. injection Hm as ->. apply list_elem_of_here. }
  apply exec_min_width in Hin. unfold pos in Hin. simpl in Hin.
  assert (1 <= min_width r)%nat; [|lia].
  repeat (apply elem_of_cons in Hr as [->|Hr]; [simpl; lia|]).
  by apply elem_of_nil in Hr.
Qed.

End MatcherFacts.

(** * Which match is reported *)
Section ShortestMatch.

Implicit Types (r : regex) (st : mstate) (w : nat).








Lemma increasing_shift (l : list nat) (k : nat) :
  increasing l -> increasing (map (fun x => (x + k)%nat) l).
Proof.
  induction l as [|x l IH]; [done|]. intros [Hx Hl]. split; [|by apply IH].
  apply Forall_fmap. eapply Forall_impl; [exact Hx|]. simpl. lia.
Qed.




Lemma at_most_one_grp n r : at_most_one r -> at_most_one (Grp n r).
Proof. intros H st. simpl. rewrite length_map. apply H. Qed.













End ShortestMatch.

(** * Claims about the inline transformation *)

(** C10. On a text with none of the characters [*], [~], [[] and the
    backquote, [process_inline] is the identity, so the text stands
    unchanged between the tags of its element in the body. *)
Theorem process_inline_plain (text : str) :
  42 ∉ text -> 126 ∉ text -> 91 ∉ text -> 96 ∉ text ->
  process_inline text = text /\
  markup (H1 text) = u "<h1>" ++ text ++ u "</h1>" /\
  markup (H2 text) = u "<h2>" ++ text ++ u "</h2>" /\
  markup (H3 text) = u "<h3>" ++ text ++ u "</h3>" /\
  markup (Par text) = u "<p>" ++ text ++ u "</p>" /\
  markup (Li text ul) = u "<ul><li>" ++ text ++ u "</li></ul>" /\
  markup (Li text ol) = u "<ol><li>" ++ text ++ u "</li></ol>" /\
  (forall elem earlier later,
     concat (html_body (earlier ++ elem :: later))
     = concat (html_body earlier) ++ markup elem ++ concat (html_body later)).
Proof.
  intros Hstar Htilde Hbracket Hquote.
  assert (process_inline text = text) as E.
  { unfold process_inline.
    rewrite (sub_no_opener strong_re _ 42) by done.
    rewrite (sub_no_opener em_re _ 42) by done.
    rewrite (sub_no_opener strike_re _ 126) by done.
    rewrite (sub_no_opener link_re _ 91) by done.
    by rewrite (sub_no_opener code_re _ 96). }
  split; [done|]. unfold markup at 1 2 3 4 5 6. rewrite E.
  repeat (split; [reflexivity|]).
  intros elem earlier later.
  by rewrite !html_body_map, map_app, concat_app.
Qed.

Lemma process_inline_plain_witness :
  process_inline (u "Report Title") = u "Report Title".
Proof.
  refine (proj1 (process_inline_plain (u "Report Title") _ _ _ _));
    apply (bool_decide_unpack _); vm_compute; exact I.
Defined.

Section StyleFacts.

Lemma float_answer (default line : str) :
  is_float_literal default = true -> float_ok line = true ->
  float (answer default line) = Some (Float (answer default line)).
Proof.
  unfold float_ok, answer, float. intros Hd Hl.
  destruct (strip line); by rewrite ?Hd, ?Hl.
Qed.

Lemma numeric_ok_from_lookup (stdin : list str) (k i : nat) (line : str) :
  numeric_ok_from k stdin = true -> stdin !! i = Some line ->
  numeric_prompt (k + i) = true -> float_ok line = true.
Proof.
  revert k i. induction stdin as [|first rest IH]; intros k i H Hi Hp; [done|].
  simpl in H. apply andb_prop in H as [Hfirst Hrest].
  destruct i as [|i]; simpl in Hi.
  - injection Hi as ->. rewrite Nat.add_0_r in Hp. by rewrite Hp in Hfirst.
  - apply (IH (S k) i); [done..|]. by rewrite <- Nat.add_succ_comm in Hp.
Qed.

Lemma numeric_ok_lookup (stdin : list str) (i : nat) (line : str) :
  numeric_ok stdin = true -> stdin !! i = Some line ->
  numeric_prompt i = true -> float_ok line = true.
Proof. apply (numeric_ok_from_lookup stdin 0 i). Qed.

Lemma default_styles_keys : dom DEFAULT_STYLES = list_to_set style_keys.
Proof.
  unfold DEFAULT_STYLES, style_keys. rewrite !dom_insert_L, dom_empty_L.
  simpl. set_solver.
Qed.

End StyleFacts.

(** C7, as stated, fails when an answer to a numeric prompt is not a
    number: [float] raises and the override path produces no mapping. *)
Lemma override_aborts_on_malformed_number :
  fst (ask_style_config [[]; u "abc"; []; []; []]) = Raise ValueError.
Proof. reflexivity. Qed.

Ltac numeric_fact H i d :=
  try (let F := fresh "F" in
       pose proof (float_answer d _ eq_refl (numeric_ok_lookup _ i _ H eq_refl eq_refl)) as F).

Ltac run_prompts :=
  cbv beta iota zeta
      delta [ask_style_config except_EOFError prompt to_float bind input ret raise];
  repeat match goal with
         | F : float _ = Some _ |- _ => rewrite F; clear F; cbv beta iota zeta
         end.

Lemma lookup_default_h3 : DEFAULT_STYLES !! "h3"%string = Some default_h3.
Proof. reflexivity. Qed.

Lemma lookup_default_li : DEFAULT_STYLES !! "li"%string = Some default_li.
Proof. reflexivity. Qed.

Ltac case_float H d s :=
  try match type of H with
      | context [float (answer d s)] =>
          let E := fresh "E" in
          destruct (float (answer d s)) eqn:E;
          cbv beta iota zeta in H; [|discriminate H]
      end.

(** Whatever is typed, a mapping that [ask_style_config] returns has the
    five keys, with the built-in [h3] and [li]. *)
Lemma ask_style_config_returns (stdin : list str) styles rest :
  ask_style_config stdin = (Ok styles, rest) ->
  dom styles = list_to_set style_keys /\
  styles !! "h3"%string = DEFAULT_STYLES !! "h3"%string /\
  styles !! "li"%string = DEFAULT_STYLES !! "li"%string /\
  (length stdin <= length rest + 15)%nat.
Proof.
  intros H.
  destruct stdin as [|s0 [|s1 [|s2 [|s3 [|s4 [|s5 [|s6 [|s7 [|s8 [|s9
                    [|s10 [|s11 [|s12 [|s13 [|s14 rest']]]]]]]]]]]]]]];
    cbv beta iota zeta
        delta [ask_style_config except_EOFError prompt to_float bind input ret raise] in H;
    case_float H (u "16") s1; case_float H (u "30") s3; case_float H (u "12") s4;
    case_float H (u "16") s6; case_float H (u "30") s8; case_float H (u "12") s9;
    case_float H (u "16") s11; case_float H (u "28") s13; case_float H (u "2") s14;
    injection H as <- <-.
  16: { split; [|split; [|split]].
        - rewrite !dom_insert_L, dom_empty_L. unfold style_keys. simpl. set_solver.
        - by rewrite lookup_default_h3, lookup_insert_ne, lookup_insert_eq.
        - by rewrite lookup_default_li, lookup_insert_eq.
        - simpl. lia. }
  all: split; [apply default_styles_keys|]; repeat split; simpl; lia.
Qed.

(** With answers that pass the numeric prompts, [ask_style_config]
    returns. *)
Lemma ask_style_config_total (stdin : list str) :
  numeric_ok stdin = true ->
  exists styles rest, ask_style_config stdin = (Ok styles, rest).
Proof.
  intros H.
  destruct stdin as [|s0 [|s1 [|s2 [|s3 [|s4 [|s5 [|s6 [|s7 [|s8 [|s9
                    [|s10 [|s11 [|s12 [|s13 [|s14 rest]]]]]]]]]]]]]]];
    numeric_fact H 1%nat (u "16"); numeric_fact H 3%nat (u "30");
    numeric_fact H 4%nat (u "12"); numeric_fact H 6%nat (u "16");
    numeric_fact H 8%nat (u "30"); numeric_fact H 9%nat (u "12");
    numeric_fact H 11%nat (u "16"); numeric_fact H 13%nat (u "28");
    numeric_fact H 14%nat (u "2");
    run_prompts; eexists _, _; reflexivity.
Qed.

(** C7, amended.  The built-in defaults hold exactly the five keys; with
    no input available the override path returns the defaults; whenever
    the override path returns, what it returns is a mapping with exactly
    the five keys, each bound to a style record, in which [h3] and [li]
    are the built-in defaults, and at most the fifteen answers for [h1],
    [h2] and [p] were read; and it does return whenever every answer to
    a numeric prompt is blank or a float literal. *)
Theorem style_sets_complete (stdin : list str) :
  dom DEFAULT_STYLES = list_to_set style_keys /\
  ask_style_config [] = (Ok DEFAULT_STYLES, []) /\
  (forall styles rest,
     ask_style_config stdin = (Ok styles, rest) ->
     dom styles = list_to_set style_keys /\
     styles !! "h3"%string = DEFAULT_STYLES !! "h3"%string /\
     styles !! "li"%string = DEFAULT_STYLES !! "li"%string /\
     (length stdin <= length rest + 15)%nat) /\
  (numeric_ok stdin = true ->
   exists styles rest, ask_style_config stdin = (Ok styles, rest)).
Proof.
  split; [apply default_styles_keys|]. split; [reflexivity|].
  split; [apply ask_style_config_returns|apply ask_style_config_total].
Qed.

Lemma style_sets_complete_witness :
  numeric_ok sample_answers = true /\
  exists styles rest, ask_style_config sample_answers = (Ok styles, rest).
Proof.
  split; [reflexivity|].
  refine (proj2 (proj2 (proj2 (style_sets_complete sample_answers))) _).
  reflexivity.
Defined.

Section ExitStatus.

Lemma html_to_docx_without_application (w : World) (html_path docx_path : str) :
  fst (detect_app w) = None -> html_to_docx w html_path docx_path = false.
Proof. intros H. unfold html_to_docx. by rewrite H. Qed.

End ExitStatus.

(** C8, as stated, fails in two modes, on a machine where pywin32 is
    installed.  The mode that only reports the application prints its
    finding and exits with status 0 when nothing is installed; and in
    interactive mode a conversion that fails (here: nothing installed
    and the input file missing) is reported on the screen, after which
    [main] returns and the status is 0 again. *)
Lemma check_app_exits_zero_without_application :
  win32com_importable bare_world = true /\
  fst (detect_app bare_world) = None /\
  path_exists bare_world (u "missing.md") = false /\
  run bare_world
      {| md_file := None; output := None; no_prompt := false;
         open_flag := false; check_app := true |} [] = 0%Z /\
  run bare_world
      {| md_file := Some (u "missing.md"); output := None; no_prompt := false;
         open_flag := false; check_app := false |} [] = 0%Z.
Proof. repeat split; reflexivity. Qed.

(** C8, amended.  When pywin32 cannot be imported the process exits with
    status 1 in every mode, before [main] is called.  When it can, with
    [--check-app] the process exits with status 0 whatever is installed.
    Without [--check-app] and with [--no-prompt], the exit status is 1
    whenever no supported application is found, the input file does not
    exist, or the conversion step reports failure. *)
Theorem exit_status_on_failure (w : World) (args : Args) (stdin : list str) :
  (win32com_importable w = false -> run w args stdin = 1%Z) /\
  (win32com_importable w = true -> check_app args = true -> run w args stdin = 0%Z) /\
  (check_app args = false -> no_prompt args = true ->
   forall md_path, md_file args = Some md_path ->
     fst (detect_app w) = None \/
     path_exists w md_path = false \/
     html_to_docx w (html_path_of w md_path) (docx_path_of w md_path) = false ->
     run w args stdin = 1%Z).
Proof.
  unfold run, script. split; [|split].
  - intros ->. reflexivity.
  - intros -> Hc. unfold main. rewrite Hc. by destruct (detect_app w).
  - intros Hc Hn md_path Hf Hfail.
    destruct (win32com_importable w); [|reflexivity].
    unfold main. rewrite Hc, Hn, Hf.
    destruct md_path as [|c md_path]; [reflexivity|].
    assert (path_exists w (c :: md_path) = false \/
            html_to_docx w (html_path_of w (c :: md_path)) (docx_path_of w (c :: md_path))
            = false) as Hfail'.
    { destruct Hfail as [H|[H|H]]; auto. right. by apply html_to_docx_without_application. }
    unfold bind, lift, convert_md_to_word.
    destruct (path_exists w (c :: md_path)); simpl; [|reflexivity].
    destruct Hfail' as [?|Hconv]; [done|].
    destruct (read_text w (c :: md_path)); [|reflexivity].
    destruct (write_text w _ _); simpl; [|reflexivity].
    by rewrite Hconv.
Qed.

Lemma exit_status_on_failure_witness :
  run (without_pywin32 office_world)
      {| md_file := None; output := None; no_prompt := false;
         open_flag := false; check_app := true |} [] = 1%Z /\
  run office_world
      {| md_file := None; output := None; no_prompt := false;
         open_flag := false; check_app := true |} [] = 0%Z /\
  run bare_world
      {| md_file := Some (u "missing.md"); output := None; no_prompt := true;
         open_flag := false; check_app := false |} [] = 1%Z.
Proof.
  split; [|split].
  - refine (proj1 (exit_status_on_failure (without_pywin32 office_world) _ []) _).
    reflexivity.
  - refine (proj1 (proj2 (exit_status_on_failure office_world _ [])) _ _); reflexivity.
  - refine (proj2 (proj2 (exit_status_on_failure bare_world _ [])) _ _
              (u "missing.md") _ _); try reflexivity.
    left. reflexivity.
Defined.

(** * Further properties of the parser *)
Section ParserMore.

Implicit Types (content line text : str) (sep c : char).

Lemma split_app_cons sep (s t : str) :
  split sep (s ++ sep :: t) = split sep s ++ split sep t.
Proof.
  induction s as [|c s IH]; simpl.
  - by rewrite N.eqb_refl.
  - destruct (c =? sep); [by rewrite IH|].
    rewrite IH. by destruct (split_not_nil sep s) as (p & ps & ->).
Qed.

Lemma split_app_no_sep sep (s t : str) :
  sep ∉ t ->
  exists pieces piece,
    split sep s = pieces ++ [piece] /\ split sep (s ++ t) = pieces ++ [piece ++ t].
Proof.
  intros Ht. induction s as [|c s (pieces & piece & E1 & E2)]; simpl.
  - exists [], []. split; [done|]. by rewrite split_no_sep.
  - destruct (c =? sep).
    + exists ([] :: pieces), piece. by rewrite E1, E2.
    + rewrite E1, E2. destruct pieces as [|p ps]; simpl.
      * by exists [], (c :: piece).
      * by exists ((c :: p) :: ps), piece.
Qed.

Lemma element_of_line_trailing line ws :
  blank ws -> element_of_line (line ++ ws) = element_of_line line.
Proof. intros H. unfold element_of_line. by rewrite rstrip_blank_app. Qed.

Lemma parse_split (s t : str) :
  parse (s ++ newline :: t) = parse s ++ parse t.
Proof.
  rewrite !parse_lines. unfold lines_of. by rewrite split_app_cons, map_app.
Qed.

End ParserMore.

(** Parsing is local to the lines: the elements of two texts joined by a
    newline are the elements of the first followed by those of the
    second. *)
Theorem parse_app_newline (first second : str) :
  parse (first ++ newline :: second) = parse first ++ parse second.
Proof.
  rewrite !parse_lines. unfold lines_of.
  rewrite split_app_cons. apply map_app.
Qed.

(** Whitespace at the end of a line never changes what is parsed: with
    whitespace (other than newlines) added before a line break or at the
    end of the text, the elements are the same. *)
Theorem parse_ignores_trailing_whitespace (first ws second : str) :
  blank ws -> newline ∉ ws ->
  parse (first ++ ws) = parse first /\
  parse (first ++ ws ++ newline :: second) = parse (first ++ newline :: second).
Proof.
  intros Hws Hnl.
  assert (parse (first ++ ws) = parse first) as E.
  { rewrite !parse_lines. unfold lines_of.
    destruct (split_app_no_sep newline first ws Hnl) as (pieces & piece & -> & ->).
    rewrite !map_app. simpl. by rewrite element_of_line_trailing. }
  split; [done|].
  by rewrite app_assoc, !parse_split, E.
Qed.

Lemma parse_ignores_trailing_whitespace_witness :
  parse (u "# a" ++ u "  ") = parse (u "# a").
Proof.
  refine (proj1 (parse_ignores_trailing_whitespace (u "# a") (u "  ") [] _ _)).
  - repeat constructor.
  - apply (bool_decide_unpack _). vm_compute. exact I.
Defined.

Section ClassifierFacts.

Implicit Types (line text : str) (c : char).

Lemma is_space_cases c :
  is_space c = true ->
  (9 <= c <= 13 \/ 28 <= c <= 32 \/ c = 133 \/ c = 160 \/ c = 5760 \/
   8192 <= c <= 8202 \/ c = 8232 \/ c = 8233 \/ c = 8239 \/ c = 8287 \/ c = 12288).
Proof.
  unfold is_space.
  rewrite !orb_true_iff, !andb_true_iff, !N.leb_le, !N.eqb_eq. tauto.
Qed.

Lemma space_not_decimal c : is_space c = true -> is_decimal c = false.
Proof.
  intros Hs%is_space_cases.
  destruct (is_decimal c) eqn:Hd; [|done]. exfalso.
  unfold is_decimal in Hd. apply existsb_exists in Hd as (z & Hz & Hc).
  apply andb_prop in Hc as [Hlo%N.leb_le Hhi%N.ltb_lt].
  unfold decimal_zeros in Hz. simpl in Hz.
  repeat (destruct Hz as [<-|Hz]; [lia|]). done.
Qed.

Lemma rstrip_head c line :
  ~ blank (c :: line) -> exists rest, rstrip (c :: line) = c :: rest.
Proof.
  intros Hnb. destruct (rstrip_decomp (c :: line)) as (ws & Hws & D).
  destruct (rstrip (c :: line)) as [|c' rest] eqn:E.
  - simpl in D. by subst ws.
  - exists rest. simpl in D. by injection D as -> _.
Qed.

Lemma element_of_prefixed (marker : str) line :
  startswith marker (rstrip line) = true ->
  exists rest ws, rstrip line = marker ++ rest /\ blank ws /\ line = marker ++ rest ++ ws.
Proof.
  intros Hs. destruct (rstrip_decomp line) as (ws & Hws & D).
  assert (exists rest, rstrip line = marker ++ rest) as [rest E].
  { clear D. revert Hs. generalize (rstrip line). clear.
    induction marker as [|m marker IH]; intros s Hs; [by exists s|].
    destruct s as [|x s]; [done|]. simpl in Hs.
    apply andb_prop in Hs as [->%N.eqb_eq Hs].
    destruct (IH s Hs) as [rest ->]. by exists rest. }
  exists rest, ws. rewrite E in D. by rewrite <- app_assoc in D.
Qed.

Lemma element_of_h1_line line :
  startswith (u "# ") (rstrip line) = true ->
  element_of_line line = H1 (strip (drop 2 line)).
Proof.
  intros (rest & ws & E & Hws & ->)%element_of_prefixed.
  unfold element_of_line. rewrite E.
  change (drop 2 (u "# " ++ rest ++ ws)) with (rest ++ ws).
  by rewrite strip_blank_app.
Qed.

Lemma element_of_h2_line line :
  startswith (u "## ") (rstrip line) = true ->
  element_of_line line = H2 (strip (drop 3 line)).
Proof.
  intros (rest & ws & E & Hws & ->)%element_of_prefixed.
  unfold element_of_line. rewrite E.
  change (drop 3 (u "## " ++ rest ++ ws)) with (rest ++ ws).
  by rewrite strip_blank_app.
Qed.

Lemma element_of_indented c line :
  is_space c = true -> ~ blank (c :: line) ->
  element_of_line (c :: line) = Par (rstrip (c :: line)).
Proof.
  intros Hc Hnb. unfold element_of_line.
  destruct (rstrip_head c line Hnb) as [rest ->].
  assert ((c =? 35) = false) as H35.
  { destruct (N.eqb_spec c 35) as [->|]; [discriminate Hc|done]. }
  assert (one_of [42; 45] c = false) as Hm.
  { unfold one_of. simpl.
    destruct (N.eqb_spec c 42) as [->|]; [discriminate Hc|].
    destruct (N.eqb_spec c 45) as [->|]; [discriminate Hc|done]. }
  pose proof (space_not_decimal c Hc) as Hd.
  unfold element_of.
  change (startswith (u "# ") (c :: rest)) with ((35 =? c) && startswith [32] rest).
  change (startswith (u "## ") (c :: rest)) with ((35 =? c) && startswith [35; 32] rest).
  change (startswith (u "### ") (c :: rest)) with ((35 =? c) && startswith [35; 35; 32] rest).
  rewrite (N.eqb_sym 35 c), H35. cbn [andb].
  unfold re_match, match_at, ul_marker, ol_marker.
  cbn [exec before after groups flat_map app plus_greedy]. rewrite Hm, Hd. reflexivity.
Qed.

End ClassifierFacts.

(** A line whose trimmed form begins with [# ] is an [h1], and one whose
    trimmed form begins with [## ] is an [h2]; the text is the rest of
    the line with whitespace trimmed on both sides. *)
Theorem heading_markers (content : str) (i : nat) (line : str) :
  lines_of content !! i = Some line ->
  (startswith (u "# ") (rstrip line) = true ->
   parse content !! i = Some (H1 (strip (drop 2 line)))) /\
  (startswith (u "## ") (rstrip line) = true ->
   parse content !! i = Some (H2 (strip (drop 3 line)))).
Proof.
  intros Hline. rewrite parse_lines, list_lookup_fmap, Hline. simpl.
  split; intros Hm; f_equal; first [by apply element_of_h1_line|by apply element_of_h2_line].
Qed.

Lemma heading_markers_witness :
  parse (u "x" ++ [newline] ++ u "##   Section One  ") !! 1%nat
  = Some (H2 (u "Section One")).
Proof.
  refine (proj2 (heading_markers _ 1 (u "##   Section One  ") _) _); reflexivity.
Defined.

(** Markers are recognised at the first column only: a line that begins
    with whitespace and is not blank is a paragraph, whatever follows,
    and its text keeps the leading whitespace and loses the trailing. *)
Theorem indented_line_is_paragraph (content : str) (i : nat) (c : char) (line : str) :
  lines_of content !! i = Some (c :: line) ->
  is_space c = true -> ~ blank (c :: line) ->
  parse content !! i = Some (Par (rstrip (c :: line))).
Proof.
  intros Hline Hc Hnb. rewrite parse_lines, list_lookup_fmap.
  transitivity (element_of_line <$> Some (c :: line)).
  - exact (f_equal (fmap element_of_line) Hline).
  - simpl. by rewrite element_of_indented.
Qed.

Lemma indented_line_is_paragraph_witness :
  parse (u "  # Title ") !! 0%nat = Some (Par (u "  # Title")).
Proof.
  refine (indented_line_is_paragraph (u "  # Title ") 0 32 (u " # Title ") _ _ _);
    [reflexivity..|].
  intros H. apply Forall_cons in H as [_ H]. apply Forall_cons in H as [_ H].
  apply Forall_cons in H as [H _]. discriminate H.
Defined.

(** * Anchored patterns and greedy runs *)
Section AnchoredFacts.

Implicit Types (r : regex) (st m : mstate) (b a s : str) (p : char -> bool).

Lemma plus_lazy_subject p b a ba :
  ba ∈ plus_lazy p b a -> rev ba.1 ++ ba.2 = rev b ++ a.
Proof.
  revert b. induction a as [|c a IH]; intros b; simpl; [by intros ?%elem_of_nil|].
  destruct (p c); [|by intros ?%elem_of_nil].
  intros [->|H]%elem_of_cons; simpl.
  - by rewrite <- app_assoc.
  - rewrite (IH _ H). simpl. by rewrite <- app_assoc.
Qed.

Lemma plus_greedy_subject p b a ba :
  ba ∈ plus_greedy p b a -> rev ba.1 ++ ba.2 = rev b ++ a.
Proof.
  revert b. induction a as [|c a IH]; intros b; simpl; [by intros ?%elem_of_nil|].
  destruct (p c); [|by intros ?%elem_of_nil].
  intros [H| ->%list_elem_of_singleton]%elem_of_app; simpl.
  - rewrite (IH _ H). simpl. by rewrite <- app_assoc.
  - by rewrite <- app_assoc.
Qed.

(** A match never changes the subject, only the position in it. *)
Lemma exec_subject r st st' :
  st' ∈ exec r st -> rev (before st') ++ after st' = rev (before st) ++ after st.
Proof.
  revert st st'.
  induction r as [c|p|g p|r1 IH1 r2 IH2|n r IH|c|c|]; intros st st'; simpl.
  - destruct (after st) as [|x a'] eqn:E; [by intros ?%elem_of_nil|].
    destruct (x =? c); [|by intros ?%elem_of_nil].
    intros ->%list_elem_of_singleton. simpl. by rewrite <- app_assoc.
  - destruct (after st) as [|x a'] eqn:E; [by intros ?%elem_of_nil|].
    destruct (p x); [|by intros ?%elem_of_nil].
    intros ->%list_elem_of_singleton. simpl. by rewrite <- app_assoc.
  - intros (ba & -> & H)%list_elem_of_fmap. simpl.
    destruct g; [by apply plus_greedy_subject in H|by apply plus_lazy_subject in H].
  - intros (st1 & H1 & H2)%list_elem_of_In%in_flat_map.
    apply list_elem_of_In, IH1 in H1. apply list_elem_of_In, IH2 in H2. congruence.
  - intros (st1 & -> & H)%list_elem_of_fmap. simpl. by apply IH.
  - intros H. assert (st' = st) as ->; [|done].
    destruct (before st) as [|x ?]; [|destruct (x =? c)];
      (by apply elem_of_nil in H) || by apply list_elem_of_singleton in H.
  - intros H. assert (st' = st) as ->; [|done].
    destruct (after st) as [|x ?]; [|destruct (x =? c)];
      (by apply elem_of_nil in H) || by apply list_elem_of_singleton in H.
  - intros H. assert (st' = st) as ->; [|done].
    destruct (before st) as [|x ?];
      (by apply elem_of_nil in H) || by apply list_elem_of_singleton in H.
Qed.

Lemma head_elem_of {A} (l : list A) (x : A) : head l = Some x -> x ∈ l.
Proof. destruct l; [done|]. intros [= ->]. apply list_elem_of_here. Qed.

Lemma head_flat_map {A B} (f : A -> list B) (l : list A) (y : B) :
  head (flat_map f l) = Some y -> exists x, x ∈ l /\ head (f x) = Some y.
Proof.
  induction l as [|x l IH]; [done|]. simpl.
  destruct (f x) as [|z zs] eqn:E; simpl.
  - intros (x' & Hx' & H)%IH. exists x'. split; [by right|done].
  - intros [= ->]. exists x. split; [by left|]. by rewrite E.
Qed.

Lemma sub_loop_skip r tpl (xs : str) b a :
  sub_loop r tpl (length xs) b (xs ++ a) = sub_loop r tpl 0 (rev xs ++ b) a.
Proof.
  revert b. induction xs as [|x xs IH]; intros b; [reflexivity|].
  simpl. rewrite IH. by rewrite <- app_assoc.
Qed.

Lemma sub_loop_bol r tpl b a : b <> [] -> sub_loop (Bol -- r) tpl 0 b a = a.
Proof.
  revert b. induction a as [|c a IH]; intros b Hb; [reflexivity|].
  simpl. unfold match_at. rewrite exec_seq. simpl.
  destruct b; [done|]. simpl. by rewrite IH.
Qed.

(** [re.sub] with a pattern anchored at the start: the match at the start,
    if there is one, is replaced and the rest of the subject is kept. *)
Lemma sub_anchored r tpl s m :
  (1 <= min_width r)%nat -> re_match (Bol -- r) s = Some m ->
  sub (Bol -- r) tpl s = expand tpl m ++ after m.
Proof.
  intros Hw Hm. unfold re_match in Hm.
  pose proof (head_elem_of _ _ Hm) as Hin.
  pose proof (exec_min_width _ _ _ Hin) as Hpos.
  pose proof (exec_subject _ _ _ Hin) as Hsub.
  unfold pos in Hpos. simpl in Hpos, Hsub.
  unfold sub. destruct s as [|c s].
  { destruct (before m) as [|x l]; simpl in *; [lia|]. by destruct (rev l). }
  simpl. unfold match_at in Hm |- *. rewrite Hm. f_equal.
  destruct (rev (before m)) as [|x xs] eqn:E.
  { apply (f_equal length) in E. rewrite length_rev in E. simpl in E. lia. }
  simpl in Hsub. injection Hsub as -> <-.
  replace (length (before m) - 0 - 1)%nat with (length xs).
  - rewrite sub_loop_skip. apply sub_loop_bol. by destruct (rev xs).
  - apply (f_equal length) in E. rewrite length_rev in E. simpl in E. lia.
Qed.

Lemma sub_unanchored r tpl s :
  re_match (Bol -- r) s = None -> sub (Bol -- r) tpl s = s.
Proof.
  intros Hm. unfold sub. destruct s as [|c s]; [reflexivity|].
  simpl. unfold re_match in Hm. rewrite Hm. f_equal. by apply sub_loop_bol.
Qed.

(** The longest run comes first. *)
Lemma plus_greedy_run p b (xs a : str) :
  Forall (fun c => p c = true) xs -> xs <> [] ->
  (forall c, head a = Some c -> p c = false) ->
  exists others, plus_greedy p b (xs ++ a) = (rev xs ++ b, a) :: others.
Proof.
  intros Hall Hne Ha. revert b.
  induction Hall as [|x xs Hx Hall IH]; [done|]. intros b. simpl. rewrite Hx.
  destruct xs as [|x' xs].
  - exists []. simpl.
    assert (plus_greedy p (x :: b) a = []) as ->; [|done].
    destruct a as [|c a]; [done|]. simpl. by rewrite (Ha c).
  - destruct (IH ltac:(done) (x :: b)) as [others ->].
    eexists. simpl. rewrite <- !app_assoc. simpl. reflexivity.
Qed.

Lemma plus_greedy_head p b a b' a' :
  head (plus_greedy p b a) = Some (b', a') ->
  (exists c, head b' = Some c /\ p c = true) /\
  (forall c, head a' = Some c -> p c = false).
Proof.
  revert b. induction a as [|c a IH]; intros b; simpl; [done|].
  destruct (p c) eqn:Hc; [|done].
  destruct (plus_greedy p (c :: b) a) as [|x l] eqn:E; simpl.
  - intros [= <- <-]. split; [by exists c|].
    intros c' Hc'. destruct a as [|c'' a]; [done|]. injection Hc' as ->.
    simpl in E. destruct (p c'); [|done]. by destruct (plus_greedy p _ a).
  - intros [= ->]. apply (IH (c :: b)). by rewrite E.
Qed.

End AnchoredFacts.

Section ListMarkerFacts.

Implicit Types (line text ws : str) (c : char).

Lemma text_head_not_space text :
  text <> [] -> lstrip text = text -> forall c, head text = Some c -> is_space c = false.
Proof.
  intros Hne Hl c Hc. destruct text as [|x text]; [done|]. injection Hc as ->.
  simpl in Hl. destruct (is_space c); [|done].
  pose proof (lstrip_length text) as L. apply (f_equal length) in Hl. simpl in Hl. lia.
Qed.

Lemma re_match_ul mark ws text :
  one_of [42; 45] mark = true -> ws <> [] -> blank ws ->
  (forall c, head text = Some c -> is_space c = false) ->
  re_match ul_marker (mark :: ws ++ text) = Some (MState (rev ws ++ [mark]) text []).
Proof.
  intros Hmark Hne Hws Htext.
  unfold re_match, match_at, ul_marker.
  cbn [exec before after groups flat_map]. rewrite Hmark.
  cbn [exec before after groups flat_map fst snd].
  destruct (plus_greedy_run is_space [mark] ws text Hws Hne Htext) as [others ->].
  reflexivity.
Qed.

Lemma re_match_ol (digits ws text : str) :
  digits <> [] -> Forall (fun c => is_decimal c = true) digits ->
  ws <> [] -> blank ws ->
  (forall c, head text = Some c -> is_space c = false) ->
  re_match ol_marker (digits ++ 46 :: ws ++ text)
  = Some (MState (rev ws ++ 46 :: rev digits) text []).
Proof.
  intros Hd Hdigits Hne Hws Htext.
  unfold re_match, match_at, ol_marker.
  cbn [exec before after groups flat_map].
  destruct (plus_greedy_run is_decimal [] digits (46 :: ws ++ text) Hdigits Hd)
    as [others ->].
  { by intros c [= <-]. }
  cbn [map flat_map fst snd exec before after groups]. rewrite N.eqb_refl.
  cbn [map flat_map fst snd exec before after groups].
  match goal with
  | |- context [plus_greedy is_space ?b (ws ++ text)] =>
      destruct (plus_greedy_run is_space b ws text Hws Hne Htext) as [others' ->]
  end.
  cbn [map app head fst snd]. by rewrite app_nil_r.
Qed.

Lemma element_of_ul mark ws text :
  one_of [42; 45] mark = true -> ws <> [] -> blank ws ->
  (forall c, head text = Some c -> is_space c = false) ->
  element_of (mark :: ws ++ text) = Li text ul.
Proof.
  intros Hmark Hne Hws Htext.
  assert ((35 =? mark) = false) as H35.
  { destruct (N.eqb_spec 35 mark) as [<-|]; [discriminate Hmark|done]. }
  unfold element_of.
  change (startswith (u "# ") (mark :: ?r)) with ((35 =? mark) && startswith [32] r).
  change (startswith (u "## ") (mark :: ?r)) with ((35 =? mark) && startswith [35; 32] r).
  change (startswith (u "### ") (mark :: ?r))
    with ((35 =? mark) && startswith [35; 35; 32] r).
  rewrite H35. cbn [andb].
  pose proof (re_match_ul mark ws text Hmark Hne Hws Htext) as Hm.
  rewrite Hm. rewrite bool_decide_eq_true_2 by eauto.
  f_equal. unfold ul_marker in *.
  apply (sub_anchored _ []) in Hm; [exact Hm|simpl; lia].
Qed.

Lemma decimal_not_marker c :
  is_decimal c = true -> (35 =? c) = false /\ one_of [42; 45] c = false.
Proof.
  intros Hc. split.
  - destruct (N.eqb_spec 35 c) as [<-|]; [discriminate Hc|done].
  - unfold one_of. simpl.
    destruct (N.eqb_spec c 42) as [->|]; [discriminate Hc|].
    destruct (N.eqb_spec c 45) as [->|]; [discriminate Hc|done].
Qed.

Lemma element_of_ol (digits ws text : str) :
  digits <> [] -> Forall (fun c => is_decimal c = true) digits ->
  ws <> [] -> blank ws ->
  (forall c, head text = Some c -> is_space c = false) ->
  element_of (digits ++ 46 :: ws ++ text) = Li text ol.
Proof.
  intros Hd Hdigits Hne Hws Htext.
  pose proof (re_match_ol digits ws text Hd Hdigits Hne Hws Htext) as Hm.
  destruct digits as [|d digits]; [done|].
  apply Forall_cons in Hdigits as [Hfirst Hdigits].
  destruct (decimal_not_marker d Hfirst) as [H35 Hmark].
  unfold element_of. cbn [app].
  change (startswith (u "# ") (d :: ?r)) with ((35 =? d) && startswith [32] r).
  change (startswith (u "## ") (d :: ?r)) with ((35 =? d) && startswith [35; 32] r).
  change (startswith (u "### ") (d :: ?r)) with ((35 =? d) && startswith [35; 35; 32] r).
  rewrite H35. cbn [andb].
  assert (re_match ul_marker (d :: digits ++ 46 :: ws ++ text) = None) as ->.
  { unfold re_match, match_at, ul_marker.
    cbn [exec before after groups flat_map]. by rewrite Hmark. }
  rewrite bool_decide_eq_false_2 by (by intros [? ?]).
  change (d :: digits ++ 46 :: ws ++ text) with ((d :: digits) ++ 46 :: ws ++ text).
  rewrite Hm. rewrite bool_decide_eq_true_2 by eauto.
  f_equal. unfold ol_marker in *.
  apply (sub_anchored _ []) in Hm; [exact Hm|simpl; lia].
Qed.

Lemma rstrip_item (head_part text trailing : str) :
  text <> [] -> strip text = text -> blank trailing ->
  rstrip (head_part ++ text ++ trailing) = head_part ++ text.
Proof.
  intros Hne Hs Ht. destruct (strip_fixed text Hs) as [Hr _].
  by rewrite app_assoc, rstrip_blank_app, rstrip_app_fixed.
Qed.

End ListMarkerFacts.

(** A line that is [*] or [-], then whitespace, then a text, then
    possibly more whitespace, is an unordered list item whose text is
    that text: marker and surrounding whitespace are removed. *)
Theorem unordered_item (content : str) (i : nat) (mark : char) (ws text trailing : str) :
  lines_of content !! i = Some (mark :: ws ++ text ++ trailing) ->
  mark = 42 \/ mark = 45 -> ws <> [] -> blank ws ->
  text <> [] -> strip text = text -> blank trailing ->
  parse content !! i = Some (Li text ul).
Proof.
  intros Hline Hmark Hne Hws Htext Hs Ht.
  rewrite parse_lines, list_lookup_fmap.
  transitivity (element_of_line <$> Some (mark :: ws ++ text ++ trailing)).
  { exact (f_equal (fmap element_of_line) Hline). }
  simpl. f_equal. unfold element_of_line.
  change (mark :: ws ++ text ++ trailing) with ((mark :: ws) ++ text ++ trailing).
  rewrite rstrip_item by done. simpl.
  apply element_of_ul; [by destruct Hmark as [->| ->]|done..|].
  apply text_head_not_space; [done|]. by apply strip_fixed.
Qed.

Lemma unordered_item_witness :
  parse (u "- item text") !! 0%nat = Some (Li (u "item text") ul).
Proof.
  refine (unordered_item (u "- item text") 0 45 (u " ") (u "item text") [] _ _ _ _ _ _ _);
    try reflexivity; try done; auto; repeat constructor.
Defined.

(** A line that is one or more decimal digits, a full stop, whitespace,
    then a text, then possibly more whitespace, is an ordered list item
    whose text is that text; the number itself is dropped. *)
Theorem ordered_item (content : str) (i : nat) (digits ws text trailing : str) :
  lines_of content !! i = Some (digits ++ 46 :: ws ++ text ++ trailing) ->
  digits <> [] -> Forall (fun c => is_decimal c = true) digits ->
  ws <> [] -> blank ws ->
  text <> [] -> strip text = text -> blank trailing ->
  parse content !! i = Some (Li text ol).
Proof.
  intros Hline Hd Hdigits Hne Hws Htext Hs Ht.
  rewrite parse_lines, list_lookup_fmap.
  transitivity (element_of_line <$> Some (digits ++ 46 :: ws ++ text ++ trailing)).
  { exact (f_equal (fmap element_of_line) Hline). }
  simpl. f_equal. unfold element_of_line.
  replace (digits ++ 46 :: ws ++ text ++ trailing)
    with ((digits ++ 46 :: ws) ++ text ++ trailing) by (by rewrite <- app_assoc).
  rewrite rstrip_item by done. rewrite <- app_assoc. simpl.
  apply element_of_ol; [done..|].
  apply text_head_not_space; [done|]. by apply strip_fixed.
Qed.

Lemma ordered_item_witness :
  parse (u "3. item text") !! 0%nat = Some (Li (u "item text") ol).
Proof.
  refine (ordered_item (u "3. item text") 0 (u "3") (u " ") (u "item text") [] _ _ _ _ _ _ _ _);
    try reflexivity; try done; repeat constructor.
Defined.

Section TrimmedFacts.

Implicit Types (s t line text : str) (c : char).

Lemma rstrip_rstrip s : rstrip (rstrip s) = rstrip s.
Proof.
  unfold rstrip. rewrite rev_involutive. f_equal.
  generalize (rev s). clear. intros s.
  induction s as [|c s IH]; [reflexivity|]. simpl.
  destruct (is_space c) eqn:Hc; [done|]. simpl. by rewrite Hc.
Qed.

Lemma rstrip_suffix s t : rstrip (s ++ t) = s ++ t -> t <> [] -> rstrip t = t.
Proof.
  intros E Hne.
  destruct (rstrip_fixed_last (s ++ t) E) as (s' & c & E' & Hc).
  { by destruct s, t. }
  destruct (rev t) as [|c' t'] eqn:Ht.
  { apply (f_equal (@rev char)) in Ht. rewrite rev_involutive in Ht. done. }
  apply (f_equal (@rev char)) in Ht. rewrite rev_involutive in Ht. simpl in Ht.
  subst t. rewrite app_assoc in E'. apply app_inj_tail in E' as [_ ->].
  by apply rstrip_snoc.
Qed.

Lemma lstrip_lstrip s : lstrip (lstrip s) = lstrip s.
Proof.
  induction s as [|c s IH]; [reflexivity|]. simpl.
  destruct (is_space c) eqn:Hc; [done|]. simpl. by rewrite Hc.
Qed.

Lemma lstrip_trimmed s :
  s <> [] -> rstrip s = s -> lstrip s <> [] /\ rstrip (lstrip s) = lstrip s.
Proof.
  intros Hne E.
  destruct (lstrip_decomp s) as (ws & Hws & D).
  assert (lstrip s <> []) as Hl.
  { intros El. rewrite El, app_nil_r in D. subst ws.
    rewrite rstrip_blank in E by done. done. }
  split; [done|]. rewrite D in E. by apply rstrip_suffix in E.
Qed.

Lemma head_not_space_lstrip s :
  (forall c, head s = Some c -> is_space c = false) -> lstrip s = s.
Proof.
  intros H. destruct s as [|c s]; [done|]. simpl. by rewrite (H c).
Qed.

Lemma head_exec_last_run (r : regex) p (st m : mstate) :
  last_run r = Some p -> head (exec r st) = Some m ->
  (exists c, head (before m) = Some c /\ p c = true) /\
  (forall c, head (after m) = Some c -> p c = false).
Proof.
  revert st. induction r as [c|q|g q|r1 IH1 r2 IH2|n r IH|c|c|]; intros st Hr Hm;
    try discriminate Hr.
  - destruct g; [|discriminate Hr]. injection Hr as ->. simpl in Hm.
    destruct (plus_greedy p (before st) (after st)) as [|[b' a'] l] eqn:E; [done|].
    simpl in Hm. injection Hm as <-. simpl.
    apply (plus_greedy_head p (before st) (after st)). by rewrite E.
  - simpl in Hr. rewrite exec_seq in Hm.
    apply head_flat_map in Hm as (st1 & _ & Hm). by apply (IH2 st1).
Qed.

(** The text of a list item: what follows the marker in a trimmed line. *)
Lemma item_text_trimmed (r : regex) p line (m : mstate) :
  last_run r = Some p -> (forall c, p c = true -> is_space c = true) ->
  (forall c, is_space c = true -> p c = true) ->
  line <> [] -> rstrip line = line -> re_match r line = Some m ->
  after m <> [] /\ rstrip (after m) = after m /\ lstrip (after m) = after m /\
  exists consumed, line = consumed ++ after m.
Proof.
  intros Hr Hp Hp' Hne E Hm. unfold re_match, match_at in Hm.
  pose proof (exec_subject _ _ _ (head_elem_of _ _ Hm)) as Hsub. simpl in Hsub.
  destruct (head_exec_last_run r p _ m Hr Hm) as [(c & Hc & Hpc) Hafter].
  assert (after m <> []) as Hnonempty.
  { intros Ha. rewrite Ha, app_nil_r in Hsub.
    destruct (rstrip_fixed_last line E Hne) as (s' & c' & E' & Hc').
    destruct (before m) as [|x b]; [done|]. injection Hc as ->.
    simpl in Hsub. rewrite E' in Hsub. apply app_inj_tail in Hsub as [_ ->].
    apply Hp in Hpc. congruence. }
  split; [done|]. rewrite <- Hsub in E. split; [by apply rstrip_suffix in E|].
  split; [|by exists (rev (before m))].
  apply head_not_space_lstrip. intros c' Hc'. apply Hafter in Hc'.
  destruct (is_space c') eqn:Hs; [|done]. apply Hp' in Hs. congruence.
Qed.

Lemma element_of_trimmed line text :
  line <> [] -> rstrip line = line -> text_of (element_of line) = Some text ->
  text <> [] /\ rstrip text = text /\
  (is_paragraph (element_of line) = false -> lstrip text = text) /\
  exists before_text, line = before_text ++ text.
Proof.
  intros Hne E. unfold element_of.
  destruct line as [|c0 rest0] eqn:Eline; [done|]. rewrite <- Eline in *.
  assert (forall marker : str,
            startswith marker line = true -> (exists c, last marker = Some c /\ is_space c = true) ->
            forall t, t = strip (drop (length marker) line) ->
            t <> [] /\ rstrip t = t /\ lstrip t = t /\ exists b, line = b ++ t) as Hheading.
  { intros marker Hs (c & Hlast & Hc) t ->.
    assert (startswith marker (rstrip line) = true) as Hs' by by rewrite E.
    destruct (element_of_prefixed marker line Hs') as (rest & ws & Er & Hws & D).
    rewrite E in Er. rewrite Er, drop_app_length.
    assert (rest <> []) as Hrest.
    { intros ->. rewrite app_nil_r in Er. rewrite Er in E.
      destruct (rstrip_fixed_last marker E) as (s' & c' & E' & Hc'); [by destruct marker|].
      rewrite E', last_snoc in Hlast. congruence. }
    assert (rstrip rest = rest) as Hr.
    { rewrite Er in E. by apply rstrip_suffix in E. }
    unfold strip. rewrite Hr.
    destruct (lstrip_trimmed rest Hrest Hr) as [H1 H2].
    split; [done|]. split; [done|]. split; [apply lstrip_lstrip|].
    destruct (lstrip_decomp rest) as (ws' & _ & D').
    exists (marker ++ ws'). rewrite <- app_assoc, <- D'. done. }
  destruct (startswith (u "# ") line) eqn:S1.
  { intros [= <-]. destruct (Hheading (u "# ") S1 ltac:(by exists 32) _ eq_refl)
      as (? & ? & ? & ?). done. }
  destruct (startswith (u "## ") line) eqn:S2.
  { intros [= <-]. destruct (Hheading (u "## ") S2 ltac:(by exists 32) _ eq_refl)
      as (? & ? & ? & ?). done. }
  destruct (startswith (u "### ") line) eqn:S3.
  { intros [= <-]. destruct (Hheading (u "### ") S3 ltac:(by exists 32) _ eq_refl)
      as (? & ? & ? & ?). done. }
  assert (forall r m, last_run (Bol -- r) = Some is_space -> (1 <= min_width r)%nat ->
            re_match (Bol -- r) line = Some m ->
            let t := sub (Bol -- r) [] line in
            t <> [] /\ rstrip t = t /\ lstrip t = t /\ exists b, line = b ++ t) as Hitem.
  { intros r m Hr Hw Hm. simpl. rewrite (sub_anchored r [] line m Hw Hm). simpl.
    apply (item_text_trimmed (Bol -- r) is_space line m); done. }
  destruct (re_match ul_marker line) as [m|] eqn:Mu.
  { rewrite bool_decide_eq_true_2 by eauto. intros [= <-].
    destruct (Hitem (Cls (one_of [42; 45]) -- Plus true is_space) m eq_refl
                ltac:(simpl; lia) Mu) as (? & ? & ? & ?). done. }
  rewrite bool_decide_eq_false_2 by (by intros [? ?]).
  destruct (re_match ol_marker line) as [m|] eqn:Mo.
  { rewrite bool_decide_eq_true_2 by eauto. intros [= <-].
    destruct (Hitem (Plus true is_decimal -- Chr 46 -- Plus true is_space) m eq_refl
                ltac:(simpl; lia) Mo) as (? & ? & ? & ?). done. }
  rewrite bool_decide_eq_false_2 by (by intros [? ?]).
  intros [= <-]. split; [done|]. split; [done|]. split; [done|]. by exists [].
Qed.

End TrimmedFacts.

(** Whatever the input, no element of [parse] carries an empty text, a
    text with trailing whitespace, or a text with a newline; and the text
    of a heading or a list item has no leading whitespace either. *)
Theorem element_texts_trimmed (content : str) (e : Element) (text : str) :
  e ∈ (parse content) -> text_of e = Some text ->
  text <> [] /\ rstrip text = text /\ (newline ∉ text) /\
  (is_paragraph e = false -> lstrip text = text).
Proof.
  rewrite parse_lines. intros (line & -> & Hline)%list_elem_of_fmap Htext.
  unfold element_of_line in *.
  pose proof (split_pieces newline content) as Hnl.
  rewrite Forall_forall in Hnl. specialize (Hnl line Hline).
  destruct (rstrip_decomp line) as (ws & _ & D).
  destruct (rstrip line) as [|c l] eqn:E; [done|]. rewrite <- E in *.
  destruct (element_of_trimmed (rstrip line) text) as (H1 & H2 & H3 & b & H4);
    [by rewrite E|apply rstrip_rstrip|done|].
  repeat split; try done.
  rewrite D, H4 in Hnl. rewrite !not_elem_of_app in Hnl. tauto.
Qed.

Lemma element_texts_trimmed_witness :
  u "b" <> [] /\ rstrip (u "b") = u "b" /\ (newline ∉ u "b") /\
  (is_paragraph (H2 (u "b")) = false -> lstrip (u "b") = u "b").
Proof.
  refine (element_texts_trimmed (u "a" ++ [newline] ++ u "##  b  ") (H2 (u "b")) (u "b") _ _);
    [|reflexivity].
  change (parse (u "a" ++ [newline] ++ u "##  b  ")) with [Par (u "a"); H2 (u "b")].
  apply list_elem_of_further, list_elem_of_here.
Defined.

(** * What each inline rule does to one span *)
Section InlineSpans.

Implicit Types (r : regex) (st m : mstate) (b a s pre post X : str) (c d : char).

Lemma plain_no (s : str) d :
  plain s = true -> d ∈ [42; 126; 91; 96] -> d ∉ s.
Proof.
  unfold plain. intros H Hd Hin. rewrite forallb_forall in H.
  apply list_elem_of_In, H in Hin. unfold none_of, one_of in Hin.
  apply negb_true_iff in Hin.
  assert (existsb (N.eqb d) [42; 126; 91; 96] = true) as Hex; [|congruence].
  apply existsb_exists. exists d. split; [by apply list_elem_of_In|apply N.eqb_refl].
Qed.

Lemma plain_app s t : plain (s ++ t) = plain s && plain t.
Proof. apply forallb_app. Qed.

Lemma sub_loop_plain_prefix r tpl d pre b a :
  opener r = Some d -> d ∉ pre ->
  sub_loop r tpl 0 b (pre ++ a) = pre ++ sub_loop r tpl 0 (rev pre ++ b) a.
Proof.
  intros Hop. revert b. induction pre as [|c pre IH]; intros b Hd; [reflexivity|].
  apply not_elem_of_cons in Hd as [Hc Hd]. simpl.
  unfold match_at. rewrite (exec_opener r d) by (simpl; congruence || done).
  simpl. rewrite IH by done. by rewrite <- app_assoc.
Qed.

Lemma sub_loop_match r tpl b (matched post : str) m :
  matched <> [] -> match_at r b (matched ++ post) = Some m ->
  before m = rev matched ++ b ->
  sub_loop r tpl 0 b (matched ++ post)
  = expand tpl m ++ sub_loop r tpl 0 (rev matched ++ b) post.
Proof.
  intros Hne Hm Hb. destruct matched as [|c matched]; [done|].
  simpl. change (c :: matched ++ post) with ((c :: matched) ++ post). rewrite Hm.
  f_equal. replace (length (before m) - length b - 1)%nat with (length matched).
  - rewrite sub_loop_skip. by rewrite <- app_assoc.
  - rewrite Hb. simpl. rewrite !length_app, length_rev. simpl. lia.
Qed.

Lemma span_app b (X : str) : span b (rev X ++ b) = X.
Proof.
  unfold span. rewrite length_app, length_rev.
  replace (length X + length b - length b)%nat with (length (rev X))
    by (rewrite length_rev; lia).
  by rewrite take_app_length, rev_involutive.
Qed.

Lemma exec_grp_plus n g p r2 st :
  exec (Grp n (Plus g p) -- r2) st
  = flat_map (exec r2)
      (map (grp_state n st)
         ((if g then plus_greedy else plus_lazy) p (before st) (after st))).
Proof. rewrite exec_seq. simpl. by rewrite map_map. Qed.

Lemma plus_lazy_cons p b c a :
  plus_lazy p b (c :: a) = if p c then (c :: b, a) :: plus_lazy p (c :: b) a else [].
Proof. reflexivity. Qed.

(** A lazy run stops at the first place where the rest of the pattern
    matches; the rest cannot match before its opening character. *)
Lemma lazy_until n p r2 c st0 b X a :
  opener r2 = Some c -> c ∉ X -> X <> [] -> Forall (fun x => p x = true) X ->
  head (flat_map (exec r2) (map (grp_state n st0) (plus_lazy p b (X ++ c :: a))))
  = head (exec r2 (grp_state n st0 (rev X ++ b, c :: a))
          ++ flat_map (exec r2)
               (map (grp_state n st0) (plus_lazy p (rev X ++ b) (c :: a)))).
Proof.
  intros Hop Hc Hne Hall. revert b.
  induction Hall as [|x X Hx Hall IH]; [done|]. intros b.
  apply not_elem_of_cons in Hc as [Hxc Hc].
  change ((x :: X) ++ c :: a) with (x :: (X ++ c :: a)).
  rewrite (plus_lazy_cons p b x), Hx.
  change (rev (x :: X) ++ b) with ((rev X ++ [x]) ++ b).
  rewrite <- (app_assoc (rev X)). change ([x] ++ b) with (x :: b).
  cbn [map flat_map].
  destruct X as [|x' X]; [reflexivity|].
  rewrite (exec_opener r2 c); [|done|].
  - cbn [app]. by apply IH.
  - cbn. apply not_elem_of_cons in Hc as [Hx' _]. congruence.
Qed.

Lemma greedy_until n p st0 b X c a :
  p c = false -> X <> [] -> Forall (fun x => p x = true) X ->
  exists others,
    map (grp_state n st0) (plus_greedy p b (X ++ c :: a))
    = grp_state n st0 (rev X ++ b, c :: a) :: others.
Proof.
  intros Hc Hne Hall.
  destruct (plus_greedy_run p b X (c :: a) Hall Hne) as [others ->].
  { by intros ? [= <-]. }
  by eexists.
Qed.

Lemma not_in_forall (X : str) d (p : char -> bool) :
  (forall x, x <> d -> p x = true) -> d ∉ X -> Forall (fun x => p x = true) X.
Proof.
  intros Hp Hd. apply Forall_forall. intros x Hx. apply Hp. by intros ->.
Qed.

Lemma head_last_rev (X : str) c b : c ∉ X -> c ∉ b -> head (rev X ++ b) <> Some c.
Proof.
  intros HX Hb H. apply head_elem_of in H.
  apply elem_of_app in H as [H|H]; [|exact (Hb H)].
  apply list_elem_of_In, in_rev, list_elem_of_In in H. exact (HX H).
Qed.

End InlineSpans.

Section InlineRules.

Implicit Types (b pre post X label url : str) (c d : char).

Lemma exec_chr_seq c (r : regex) b a gs :
  exec (Chr c -- r) (MState b (c :: a) gs) = exec r (MState (c :: b) a gs).
Proof.
  rewrite exec_seq. change (exec (Chr c) (MState b (c :: a) gs))
    with (if c =? c then [MState (c :: b) a gs] else []).
  rewrite N.eqb_refl. cbn [flat_map]. apply app_nil_r.
Qed.

Lemma exec_chr_last c b a gs :
  exec (Chr c) (MState b (c :: a) gs) = [MState (c :: b) a gs].
Proof. simpl. by rewrite N.eqb_refl. Qed.

Lemma dot_run X : newline ∉ X -> Forall (fun x => dot x = true) X.
Proof.
  apply not_in_forall. intros x Hx. unfold dot.
  by destruct (N.eqb_spec x newline).
Qed.

(** The match of [cc(.+?)cc] on a span without [c]. *)
Lemma match_pair c b X post :
  c ∉ X -> X <> [] -> newline ∉ X ->
  match_at (Chr c -- Chr c -- Grp 1 (Plus false dot) -- Chr c -- Chr c)
    b ((c :: c :: X ++ [c; c]) ++ post)
  = Some (MState (rev (c :: c :: X ++ [c; c]) ++ b) post [(1%nat, X)]).
Proof.
  intros Hc Hne Hnl. unfold match_at.
  change ((c :: c :: X ++ [c; c]) ++ post) with (c :: c :: (X ++ [c; c]) ++ post).
  rewrite <- app_assoc. change ([c; c] ++ post) with (c :: c :: post).
  rewrite !exec_chr_seq, exec_grp_plus. cbn [before after].
  rewrite (lazy_until 1 dot _ c) by (done || by apply dot_run).
  unfold grp_state at 1. cbn [fst snd before groups].
  rewrite span_app, exec_chr_seq, exec_chr_last. cbn [app head].
  do 2 f_equal. simpl. rewrite rev_app_distr. simpl. by rewrite <- !app_assoc.
Qed.

Lemma sub_pair c tpl pre X post :
  c ∉ pre -> c ∉ X -> c ∉ post -> X <> [] -> newline ∉ X ->
  sub (Chr c -- Chr c -- Grp 1 (Plus false dot) -- Chr c -- Chr c) tpl
    (pre ++ (c :: c :: X ++ [c; c]) ++ post)
  = pre ++ expand tpl (MState [] [] [(1%nat, X)]) ++ post.
Proof.
  intros Hpre HX Hpost Hne Hnl. unfold sub.
  rewrite (sub_loop_plain_prefix _ _ c) by done.
  rewrite (sub_loop_match _ tpl _ (c :: c :: X ++ [c; c]) post _ ltac:(done)
             (match_pair c _ X post HX Hne Hnl) eq_refl).
  by rewrite (sub_loop_no_opener _ _ c).
Qed.

End InlineRules.

Section InlineTheorems.

Implicit Types (pre post X label url text : str).

Lemma plain_rules_identity text :
  plain text = true ->
  sub em_re em_tpl text = text /\ sub strike_re strike_tpl text = text /\
  sub link_re link_tpl text = text /\ sub code_re code_tpl text = text /\
  sub strong_re strong_tpl text = text.
Proof.
  intros H.
  repeat split;
    [apply (sub_no_opener _ _ 42)|apply (sub_no_opener _ _ 126)
    |apply (sub_no_opener _ _ 91)|apply (sub_no_opener _ _ 96)
    |apply (sub_no_opener _ _ 42)];
    try reflexivity; apply plain_no; try done; set_solver.
Qed.

Lemma plain3 pre X post (open_tag close_tag : str) :
  plain pre = true -> plain X = true -> plain post = true ->
  plain open_tag = true -> plain close_tag = true ->
  plain (pre ++ (open_tag ++ X ++ close_tag) ++ post) = true.
Proof. intros. rewrite !plain_app. by repeat (apply andb_true_intro; split). Qed.

End InlineTheorems.

(** A span in double asterisks, in a text that has no other inline
    marker, becomes strong emphasis around the span; nothing else
    changes. *)
Theorem strong_span (pre X post : str) :
  plain pre = true -> plain X = true -> plain post = true ->
  X <> [] -> newline ∉ X ->
  process_inline (pre ++ u "**" ++ X ++ u "**" ++ post)
  = pre ++ u "<strong>" ++ X ++ u "</strong>" ++ post.
Proof.
  intros Hpre HX Hpost Hne Hnl. unfold process_inline.
  replace (pre ++ u "**" ++ X ++ u "**" ++ post)
    with (pre ++ (42 :: 42 :: X ++ [42; 42]) ++ post)
    by (simpl; by rewrite <- !app_assoc).
  unfold strong_re.
  rewrite (sub_pair 42) by (done || apply plain_no; (done || set_solver)).
  change (expand strong_tpl _) with (u "<strong>" ++ X ++ u "</strong>" ++ []).
  rewrite app_nil_r.
  pose proof (plain3 pre X post (u "<strong>") (u "</strong>")
                Hpre HX Hpost eq_refl eq_refl) as Hplain.
  destruct (plain_rules_identity _ Hplain) as (-> & -> & -> & -> & _).
  by rewrite <- !app_assoc.
Qed.

Lemma strong_span_witness :
  process_inline (u "This is " ++ u "**" ++ u "bold" ++ u "**" ++ u " text.")
  = u "This is " ++ u "<strong>" ++ u "bold" ++ u "</strong>" ++ u " text.".
Proof.
  refine (strong_span (u "This is ") (u "bold") (u " text.") _ _ _ _ _);
    try reflexivity; try done.
  apply (bool_decide_unpack _). vm_compute. exact I.
Defined.

(** A span in double tildes, in a text that has no other inline marker,
    becomes a struck-through span; nothing else changes. *)
Theorem strike_span (pre X post : str) :
  plain pre = true -> plain X = true -> plain post = true ->
  X <> [] -> newline ∉ X ->
  process_inline (pre ++ u "~~" ++ X ++ u "~~" ++ post)
  = pre ++ u "<s>" ++ X ++ u "</s>" ++ post.
Proof.
  intros Hpre HX Hpost Hne Hnl. unfold process_inline.
  replace (pre ++ u "~~" ++ X ++ u "~~" ++ post)
    with (pre ++ (126 :: 126 :: X ++ [126; 126]) ++ post)
    by (simpl; by rewrite <- !app_assoc).
  assert (42 ∉ pre ++ (126 :: 126 :: X ++ [126; 126]) ++ post) as H42.
  { rewrite !not_elem_of_app, !not_elem_of_cons, not_elem_of_app, !not_elem_of_cons.
    repeat split; try done; try apply not_elem_of_nil;
      apply plain_no; (done || set_solver). }
  rewrite (sub_no_opener strong_re _ 42), (sub_no_opener em_re _ 42) by done.
  unfold strike_re.
  rewrite (sub_pair 126) by (done || apply plain_no; (done || set_solver)).
  change (expand strike_tpl _) with (u "<s>" ++ X ++ u "</s>" ++ []).
  rewrite app_nil_r.
  pose proof (plain3 pre X post (u "<s>") (u "</s>")
                Hpre HX Hpost eq_refl eq_refl) as Hplain.
  destruct (plain_rules_identity _ Hplain) as (_ & _ & -> & -> & _).
  by rewrite <- !app_assoc.
Qed.

Lemma strike_span_witness :
  process_inline (u "a " ++ u "~~" ++ u "gone" ++ u "~~" ++ [])
  = u "a " ++ u "<s>" ++ u "gone" ++ u "</s>" ++ [].
Proof.
  refine (strike_span (u "a ") (u "gone") [] _ _ _ _ _);
    try reflexivity; try done.
  apply (bool_decide_unpack _). vm_compute. exact I.
Defined.

Ltac rewrite_flat H :=
  let E := fresh "E" in
  pose proof H as E; unfold str, char in *; rewrite E; clear E.

Section MoreInlineRules.

Implicit Types (b a pre post X label url : str) (c d : char) (r : regex).

Lemma head_not_in (s : str) c : c ∉ s -> head s <> Some c.
Proof. intros Hc H. apply head_elem_of in H. exact (Hc H). Qed.

Lemma head_rev_app (X b : str) c : X <> [] -> c ∉ X -> head (rev X ++ b) <> Some c.
Proof.
  intros Hne Hc H. destruct (rev X) as [|x l] eqn:E.
  { apply (f_equal (@rev char)) in E. rewrite rev_involutive in E. done. }
  simpl in H. injection H as ->.
  assert (c ∈ rev X) as Hin by (rewrite E; left).
  apply list_elem_of_In, in_rev, list_elem_of_In in Hin. exact (Hc Hin).
Qed.

Lemma exec_not_behind_seq c r b a gs :
  head b <> Some c -> exec (NotBehind c -- r) (MState b a gs) = exec r (MState b a gs).
Proof.
  intros H. rewrite exec_seq. simpl.
  destruct b as [|x b]; simpl; [by rewrite app_nil_r|].
  destruct (N.eqb_spec x c) as [->|_]; [done|]. simpl. by rewrite app_nil_r.
Qed.

Lemma exec_not_ahead_seq c r b a gs :
  head a <> Some c -> exec (NotAhead c -- r) (MState b a gs) = exec r (MState b a gs).
Proof.
  intros H. rewrite exec_seq. simpl.
  destruct a as [|x a]; simpl; [by rewrite app_nil_r|].
  destruct (N.eqb_spec x c) as [->|_]; [done|]. simpl. by rewrite app_nil_r.
Qed.

Lemma exec_not_ahead_last c b a gs :
  head a <> Some c -> exec (NotAhead c) (MState b a gs) = [MState b a gs].
Proof.
  intros H. simpl. destruct a as [|x a]; [done|].
  by destruct (N.eqb_spec x c) as [->|_].
Qed.

Lemma none_of_run (X : str) d : d ∉ X -> Forall (fun x => none_of [d] x = true) X.
Proof.
  apply not_in_forall. intros x Hx. unfold none_of, one_of. simpl.
  by destruct (N.eqb_spec x d).
Qed.

Lemma none_of_self d : none_of [d] d = false.
Proof. unfold none_of, one_of. simpl. by rewrite N.eqb_refl. Qed.

(** The match of the inline-code pattern on a span without a backquote. *)
Lemma match_code b X post :
  96 ∉ X -> X <> [] ->
  match_at code_re b ((96 :: X ++ [96]) ++ post)
  = Some (MState (rev (96 :: X ++ [96]) ++ b) post [(1%nat, X)]).
Proof.
  intros Hc Hne. unfold match_at, code_re.
  change ((96 :: X ++ [96]) ++ post) with (96 :: (X ++ [96]) ++ post).
  rewrite <- app_assoc. change ([96] ++ post) with (96 :: post).
  rewrite exec_chr_seq, exec_grp_plus. cbv beta iota. cbn [before after].
  destruct (greedy_until 1 (none_of [96]) (MState (96 :: b) (X ++ 96 :: post) [])
              (96 :: b) X 96 post (none_of_self 96) Hne (none_of_run X 96 Hc))
    as [others E]; unfold str, char in *; rewrite E; clear E.
  cbn [flat_map]. unfold grp_state at 1. cbn [fst snd before groups].
  rewrite span_app, exec_chr_last. cbn [app head].
  do 2 f_equal. simpl. rewrite rev_app_distr. simpl. by rewrite <- !app_assoc.
Qed.

(** The match of the link pattern on a well-formed link. *)
Lemma match_link b label url post :
  93 ∉ label -> label <> [] -> 41 ∉ url -> url <> [] ->
  match_at link_re b ((91 :: label ++ 93 :: 40 :: url ++ [41]) ++ post)
  = Some (MState (rev (91 :: label ++ 93 :: 40 :: url ++ [41]) ++ b) post
            [(2%nat, url); (1%nat, label)]).
Proof.
  intros Hl Hlne Hu Hune. unfold match_at, link_re.
  replace ((91 :: label ++ 93 :: 40 :: url ++ [41]) ++ post)
    with (91 :: label ++ 93 :: 40 :: url ++ 41 :: post)
    by (simpl; rewrite <- !app_assoc; simpl; by rewrite <- !app_assoc).
  rewrite exec_chr_seq, exec_grp_plus. cbv beta iota. cbn [before after].
  destruct (greedy_until 1 (none_of [93])
              (MState (91 :: b) (label ++ 93 :: 40 :: url ++ 41 :: post) [])
              (91 :: b) label 93 (40 :: url ++ 41 :: post)
              (none_of_self 93) Hlne (none_of_run label 93 Hl))
    as [others E]; unfold str, char in *; rewrite E; clear E.
  cbn [flat_map]. unfold grp_state at 1. cbn [fst snd before groups].
  rewrite span_app, !exec_chr_seq, exec_grp_plus. cbv beta iota. cbn [before after].
  destruct (greedy_until 2 (none_of [41])
              (MState (40 :: 93 :: rev label ++ 91 :: b) (url ++ 41 :: post)
                 [(1%nat, label)])
              (40 :: 93 :: rev label ++ 91 :: b) url 41 post
              (none_of_self 41) Hune (none_of_run url 41 Hu))
    as [others' E]; unfold str, char in *; rewrite E; clear E.
  cbn [flat_map]. unfold grp_state at 1. cbn [fst snd before groups].
  rewrite span_app, exec_chr_last. cbn [app head].
  do 2 f_equal. simpl.
  rewrite !rev_app_distr. simpl. rewrite !rev_app_distr. simpl.
  by rewrite <- !app_assoc.
Qed.

(** The match of the emphasis pattern on a span without an asterisk that
    has no asterisk next to it. *)
Lemma match_em b X post :
  head b <> Some 42 -> head post <> Some 42 ->
  42 ∉ X -> X <> [] -> newline ∉ X ->
  match_at em_re b ((42 :: X ++ [42]) ++ post)
  = Some (MState (rev (42 :: X ++ [42]) ++ b) post [(1%nat, X)]).
Proof.
  intros Hb Hpost Hc Hne Hnl. unfold match_at, em_re.
  change ((42 :: X ++ [42]) ++ post) with (42 :: (X ++ [42]) ++ post).
  rewrite <- app_assoc. change ([42] ++ post) with (42 :: post).
  rewrite exec_not_behind_seq by done.
  rewrite exec_chr_seq, exec_not_ahead_seq.
  2: { destruct X as [|x X]; [done|]. simpl.
       apply not_elem_of_cons in Hc as [Hx _]. congruence. }
  rewrite exec_grp_plus. cbn [before after].
  rewrite (lazy_until 1 dot _ 42) by (done || by apply dot_run).
  unfold grp_state at 1. cbn [fst snd before groups].
  rewrite span_app, exec_not_behind_seq by (by apply head_rev_app).
  rewrite exec_chr_seq, exec_not_ahead_last by done. cbn [app head].
  do 2 f_equal. simpl. rewrite rev_app_distr. simpl. by rewrite <- !app_assoc.
Qed.

Lemma strong_no_match_single b a :
  head a <> Some 42 -> match_at strong_re b (42 :: a) = None.
Proof.
  intros H. unfold match_at, strong_re. rewrite exec_chr_seq.
  by rewrite (exec_opener _ 42).
Qed.

(** The strong rule leaves a span in single asterisks alone. *)
Lemma sub_strong_single pre X post :
  42 ∉ pre -> 42 ∉ X -> 42 ∉ post -> X <> [] ->
  sub strong_re strong_tpl (pre ++ (42 :: X ++ [42]) ++ post)
  = pre ++ (42 :: X ++ [42]) ++ post.
Proof.
  intros Hpre HX Hpost Hne. unfold sub.
  rewrite (sub_loop_plain_prefix _ _ 42) by done. f_equal.
  change ((42 :: X ++ [42]) ++ post) with (42 :: (X ++ [42]) ++ post).
  rewrite <- app_assoc. change ([42] ++ post) with (42 :: post).
  cbn [sub_loop]. rewrite strong_no_match_single.
  2: { destruct X as [|x X]; [done|]. simpl.
       apply not_elem_of_cons in HX as [Hx _]. congruence. }
  f_equal. rewrite (sub_loop_plain_prefix _ _ 42) by done. f_equal.
  cbn [sub_loop]. rewrite strong_no_match_single by (by apply head_not_in).
  f_equal. by apply (sub_loop_no_opener _ _ 42).
Qed.

Lemma sub_em pre X post :
  42 ∉ pre -> 42 ∉ X -> 42 ∉ post -> X <> [] -> newline ∉ X ->
  sub em_re em_tpl (pre ++ (42 :: X ++ [42]) ++ post)
  = pre ++ (u "<em>" ++ X ++ u "</em>") ++ post.
Proof.
  intros Hpre HX Hpost Hne Hnl. unfold sub.
  rewrite (sub_loop_plain_prefix _ _ 42) by done.
  assert (head (rev pre ++ []) <> Some 42) as Hb.
  { apply head_not_in. rewrite app_nil_r. intros H.
    apply list_elem_of_In, in_rev, list_elem_of_In in H. exact (Hpre H). }
  rewrite_flat (sub_loop_match _ em_tpl _ (42 :: X ++ [42]) post _ ltac:(done)
                  (match_em _ X post Hb (head_not_in _ _ Hpost) HX Hne Hnl) eq_refl).
  rewrite (sub_loop_no_opener _ _ 42) by done.
  change (expand em_tpl _) with (u "<em>" ++ X ++ u "</em>" ++ []).
  by rewrite app_nil_r.
Qed.

Lemma sub_code pre X post :
  96 ∉ pre -> 96 ∉ X -> 96 ∉ post -> X <> [] ->
  sub code_re code_tpl (pre ++ (96 :: X ++ [96]) ++ post)
  = pre ++ (u "<code>" ++ X ++ u "</code>") ++ post.
Proof.
  intros Hpre HX Hpost Hne. unfold sub.
  rewrite (sub_loop_plain_prefix _ _ 96) by done.
  rewrite_flat (sub_loop_match _ code_tpl _ (96 :: X ++ [96]) post _ ltac:(done)
                  (match_code (rev pre ++ []) X post HX Hne) eq_refl).
  rewrite (sub_loop_no_opener _ _ 96) by done.
  change (expand code_tpl _) with (u "<code>" ++ X ++ u "</code>" ++ []).
  by rewrite app_nil_r.
Qed.

Lemma sub_link pre label url post :
  91 ∉ pre -> 91 ∉ post -> 93 ∉ label -> label <> [] -> 41 ∉ url -> url <> [] ->
  sub link_re link_tpl (pre ++ (91 :: label ++ 93 :: 40 :: url ++ [41]) ++ post)
  = pre ++ (u "<a href=" ++ [34] ++ url ++ [34] ++ u ">" ++ label ++ u "</a>") ++ post.
Proof.
  intros Hpre Hpost Hl Hlne Hu Hune. unfold sub.
  rewrite (sub_loop_plain_prefix _ _ 91) by done.
  rewrite_flat (sub_loop_match _ link_tpl _ (91 :: label ++ 93 :: 40 :: url ++ [41]) post _
                  ltac:(done) (match_link (rev pre ++ []) label url post Hl Hlne Hu Hune)
                  eq_refl).
  rewrite (sub_loop_no_opener _ _ 91) by done.
  change (expand link_tpl _)
    with ((u "<a href=" ++ [34]) ++ url ++ ([34] ++ u ">") ++ label ++ u "</a>" ++ []).
  by rewrite app_nil_r, <- !app_assoc.
Qed.

End MoreInlineRules.

Ltac not_in_text :=
  repeat first [rewrite not_elem_of_app | rewrite not_elem_of_cons];
  repeat split;
  first [ done
        | apply not_elem_of_nil
        | apply plain_no; [done|set_solver] ].

(** A span in single asterisks, in a text that has no other inline
    marker, becomes emphasis around the span; the strong rule, which
    runs first, does not touch it. *)
Theorem em_span (pre X post : str) :
  plain pre = true -> plain X = true -> plain post = true ->
  X <> [] -> newline ∉ X ->
  process_inline (pre ++ u "*" ++ X ++ u "*" ++ post)
  = pre ++ u "<em>" ++ X ++ u "</em>" ++ post.
Proof.
  intros Hpre HX Hpost Hne Hnl. unfold process_inline.
  replace (pre ++ u "*" ++ X ++ u "*" ++ post)
    with (pre ++ (42 :: X ++ [42]) ++ post)
    by (simpl; by rewrite <- !app_assoc).
  rewrite sub_strong_single by (done || not_in_text).
  rewrite sub_em by (done || not_in_text).
  pose proof (plain3 pre X post (u "<em>") (u "</em>")
                Hpre HX Hpost eq_refl eq_refl) as Hplain.
  destruct (plain_rules_identity _ Hplain) as (_ & -> & -> & -> & _).
  by rewrite <- !app_assoc.
Qed.

Lemma em_span_witness :
  process_inline (u "and " ++ u "*" ++ u "italic" ++ u "*" ++ u " text.")
  = u "and " ++ u "<em>" ++ u "italic" ++ u "</em>" ++ u " text.".
Proof.
  refine (em_span (u "and ") (u "italic") (u " text.") _ _ _ _ _);
    try reflexivity; try done.
  apply (bool_decide_unpack _). vm_compute. exact I.
Defined.

(** A span in backquotes, in a text that has no other inline marker,
    becomes inline code around the span, line breaks in it included. *)
Theorem code_span (pre X post : str) :
  plain pre = true -> plain X = true -> plain post = true -> X <> [] ->
  process_inline (pre ++ [96] ++ X ++ [96] ++ post)
  = pre ++ u "<code>" ++ X ++ u "</code>" ++ post.
Proof.
  intros Hpre HX Hpost Hne. unfold process_inline.
  replace (pre ++ [96] ++ X ++ [96] ++ post)
    with (pre ++ (96 :: X ++ [96]) ++ post)
    by (simpl; by rewrite <- !app_assoc).
  rewrite (sub_no_opener strong_re _ 42), (sub_no_opener em_re _ 42),
    (sub_no_opener strike_re _ 126), (sub_no_opener link_re _ 91)
    by (reflexivity || not_in_text).
  rewrite sub_code by (done || not_in_text).
  by rewrite <- !app_assoc.
Qed.

Lemma code_span_witness :
  process_inline (u "run " ++ [96] ++ u "make all" ++ [96] ++ u " now")
  = u "run " ++ u "<code>" ++ u "make all" ++ u "</code>" ++ u " now".
Proof.
  refine (code_span (u "run ") (u "make all") (u " now") _ _ _ _);
    try reflexivity; done.
Defined.

(** A link [[label](url)], in a text that has no other inline marker,
    becomes an anchor with the url as target and the label as text. *)
Theorem link_span (pre label url post : str) :
  plain pre = true -> plain label = true -> plain url = true -> plain post = true ->
  label <> [] -> url <> [] -> 93 ∉ label -> 41 ∉ url ->
  process_inline (pre ++ u "[" ++ label ++ u "](" ++ url ++ u ")" ++ post)
  = pre ++ u "<a href=" ++ [34] ++ url ++ [34] ++ u ">" ++ label ++ u "</a>" ++ post.
Proof.
  intros Hpre Hlabel Hurl Hpost Hlne Hune Hl Hu. unfold process_inline.
  replace (pre ++ u "[" ++ label ++ u "](" ++ url ++ u ")" ++ post)
    with (pre ++ (91 :: label ++ 93 :: 40 :: url ++ [41]) ++ post)
    by (simpl; rewrite <- !app_assoc; simpl; by rewrite <- !app_assoc).
  rewrite (sub_no_opener strong_re _ 42), (sub_no_opener em_re _ 42),
    (sub_no_opener strike_re _ 126) by (reflexivity || not_in_text).
  rewrite sub_link by (done || not_in_text).
  rewrite (sub_no_opener code_re _ 96); [by rewrite <- !app_assoc|reflexivity|].
  not_in_text.
Qed.

Lemma link_span_witness :
  process_inline (u "see " ++ u "[" ++ u "the site" ++ u "](" ++ u "http://x.org/a"
                  ++ u ")" ++ u ".")
  = u "see " ++ u "<a href=" ++ [34] ++ u "http://x.org/a" ++ [34] ++ u ">"
    ++ u "the site" ++ u "</a>" ++ u ".".
Proof.
  refine (link_span (u "see ") (u "the site") (u "http://x.org/a") (u ".")
            _ _ _ _ _ _ _ _);
    try reflexivity; try done; apply (bool_decide_unpack _); vm_compute; exact I.
Defined.

(** * Every match is rewritten, and what lies behind a match *)
Section ScanFacts.

Implicit Types (r : regex) (st m : mstate) (b a s t y pre rest X : str) (c d : char).










End ScanFacts.

(** * Each rule, span by span *)
Section RuleSteps.

Implicit Types (b a pre rest post X label url : str) (c : char).















End RuleSteps.



(** * Prompts *)

(** [ask_yes_no] passes over every line that is not an answer: such
    lines before the real input change nothing, and an input of such
    lines only is read to its end and gives the default. *)
Theorem ask_yes_no_skips_unrecognised (default : bool) (junk stdin : list str) :
  Forall (fun line => recognised line = false) junk ->
  ask_yes_no default (junk ++ stdin) = ask_yes_no default stdin /\
  ask_yes_no default junk = (Ok default, []).
Proof.
  intros Hjunk.
  assert (forall rest, ask_yes_no default (junk ++ rest) = ask_yes_no default rest) as H.
  { intros rest. induction Hjunk as [|line junk Hline _ IH]; [reflexivity|].
    change ((line :: junk) ++ rest) with (line :: (junk ++ rest)).
    cbn [ask_yes_no]. cbv zeta. unfold recognised in Hline.
    destruct (lower (strip line)) as [|c s]; [discriminate Hline|].
    apply orb_false_elim in Hline as [Hy Hn].
    unfold str, char in *. rewrite Hy, Hn. exact IH. }
  split; [apply H|]. specialize (H []). by rewrite app_nil_r in H.
Qed.

Lemma ask_yes_no_skips_unrecognised_witness :
  ask_yes_no false ([u "maybe"; u "ok?"] ++ [u " YES "; u "n"])
  = ask_yes_no false [u " YES "; u "n"].
Proof.
  refine (proj1 (ask_yes_no_skips_unrecognised false [u "maybe"; u "ok?"]
                   [u " YES "; u "n"] _)).
  repeat constructor.
Defined.

(** With fewer than five lines of input [ask_style_config] returns the
    built-in defaults whatever the lines say: the input ends before the
    first group of answers is complete, and nothing typed is converted
    or kept. *)
Theorem short_input_gives_defaults (stdin : list str) :
  (length stdin < 5)%nat -> ask_style_config stdin = (Ok DEFAULT_STYLES, []).
Proof.
  intros H.
  destruct stdin as [|s0 [|s1 [|s2 [|s3 [|s4 rest]]]]]; try reflexivity.
  simpl in H. lia.
Qed.

Lemma short_input_gives_defaults_witness :
  ask_style_config [u "SimSun"; u "not a number"] = (Ok DEFAULT_STYLES, []).
Proof. apply (short_input_gives_defaults [u "SimSun"; u "not a number"]). simpl. lia. Defined.

(** With fewer than fifteen lines of input whose numeric answers are
    well formed, [ask_style_config] still returns the built-in defaults:
    the answers given before the input ended are discarded. *)
Theorem partial_answers_discarded (stdin : list str) :
  (length stdin < 15)%nat -> numeric_ok stdin = true ->
  ask_style_config stdin = (Ok DEFAULT_STYLES, []).
Proof.
  intros Hlen H.
  destruct stdin as [|s0 [|s1 [|s2 [|s3 [|s4 [|s5 [|s6 [|s7 [|s8 [|s9
                    [|s10 [|s11 [|s12 [|s13 [|s14 rest]]]]]]]]]]]]]]];
    [..|simpl in Hlen; lia];
    numeric_fact H 1%nat (u "16"); numeric_fact H 3%nat (u "30");
    numeric_fact H 4%nat (u "12"); numeric_fact H 6%nat (u "16");
    numeric_fact H 8%nat (u "30"); numeric_fact H 9%nat (u "12");
    numeric_fact H 11%nat (u "16"); numeric_fact H 13%nat (u "28");
    numeric_fact H 14%nat (u "2");
    run_prompts; reflexivity.
Qed.

Lemma partial_answers_discarded_witness :
  ask_style_config (take 14 sample_answers) = (Ok DEFAULT_STYLES, []).
Proof.
  apply (partial_answers_discarded (take 14 sample_answers)); [simpl; lia|reflexivity].
Defined.

Lemma float_answer_malformed (default line : str) :
  float_ok line = false -> float (answer default line) = None.
Proof.
  unfold float_ok, answer, float. destruct (strip line); [done|]. by intros ->.
Qed.

(** The conversions of the first group: one that fails ends the
    function, the lines of the later groups unread. *)
Lemma first_group_conversion_fails (s0 s1 s2 s3 s4 : str) (rest : list str) :
  float (answer (u "16") s1) = None \/ float (answer (u "30") s3) = None \/
  float (answer (u "12") s4) = None ->
  ask_style_config (s0 :: s1 :: s2 :: s3 :: s4 :: rest) = (Raise ValueError, rest).
Proof.
  intros H.
  cbv beta iota zeta
      delta [ask_style_config except_EOFError prompt to_float bind input ret raise].
  destruct (float (answer (u "16") s1)) eqn:E1; cbv beta iota zeta; [|reflexivity].
  destruct (float (answer (u "30") s3)) eqn:E3; cbv beta iota zeta; [|reflexivity].
  destruct (float (answer (u "12") s4)) eqn:E4; cbv beta iota zeta; [|reflexivity].
  unfold str, char in *. destruct H as [H|[H|H]]; congruence.
Qed.

(** Once the five answers of the first group are read, a size, line
    spacing or space-after that is neither blank nor a float literal
    makes [ask_style_config] raise [ValueError], having read exactly
    those five lines. *)
Theorem malformed_number_raises (s0 s1 s2 s3 s4 : str) (rest : list str) :
  float_ok s1 = false \/ float_ok s3 = false \/ float_ok s4 = false ->
  ask_style_config (s0 :: s1 :: s2 :: s3 :: s4 :: rest) = (Raise ValueError, rest).
Proof.
  intros H. apply first_group_conversion_fails.
  destruct H as [H|[H|H]]; [left|right; left|right; right];
    by apply float_answer_malformed.
Qed.

Lemma malformed_number_raises_witness :
  ask_style_config ([] :: u "16pt" :: [] :: [] :: [] :: [u "x"])
  = (Raise ValueError, [u "x"]).
Proof.
  apply (malformed_number_raises [] (u "16pt") [] [] [] [u "x"]). left. reflexivity.
Defined.

(** In every mapping that [ask_style_config] returns, the fields it does
    not prompt for hold the values of the built-in defaults: the name
    and the space before of every style, the space after of [p], and the
    first-line indent of every style but [p]. *)
Theorem unprompted_fields_keep_defaults
    (stdin : list str) styles rest (key : string) (s d : ElementStyle) :
  ask_style_config stdin = (Ok styles, rest) ->
  styles !! key = Some s -> DEFAULT_STYLES !! key = Some d ->
  name s = name d /\
  space_before (paragraph s) = space_before (paragraph d) /\
  (key = "p"%string -> space_after (paragraph s) = space_after (paragraph d)) /\
  (key <> "p"%string ->
   first_line_indent (paragraph s) = first_line_indent (paragraph d)).
Proof.
  intros H Hs Hd.
  destruct stdin as [|s0 [|s1 [|s2 [|s3 [|s4 [|s5 [|s6 [|s7 [|s8 [|s9
                    [|s10 [|s11 [|s12 [|s13 [|s14 rest']]]]]]]]]]]]]]];
    cbv beta iota zeta
        delta [ask_style_config except_EOFError prompt to_float bind input ret raise] in H;
    case_float H (u "16") s1; case_float H (u "30") s3; case_float H (u "12") s4;
    case_float H (u "16") s6; case_float H (u "30") s8; case_float H (u "12") s9;
    case_float H (u "16") s11; case_float H (u "28") s13; case_float H (u "2") s14;
    injection H as <- <-.
  16: { unfold DEFAULT_STYLES in Hd.
        repeat match type of Hs with
               | <[?k := _]> _ !! key = _ =>
                   let Hne := fresh "Hne" in
                   destruct (decide (k = key)) as [<-|Hne];
                   [ rewrite lookup_insert_eq in Hs; injection Hs as <-;
                     vm_compute in Hd; injection Hd as <-;
                     repeat split; try reflexivity; intros; done
                   | rewrite lookup_insert_ne in Hs by exact Hne ]
               end.
        by rewrite lookup_empty in Hs. }
  all: rewrite Hs in Hd; injection Hd as <-; repeat split; reflexivity.
Qed.

Lemma unprompted_fields_keep_defaults_witness :
  exists styles s,
    ask_style_config sample_answers = (Ok styles, [u "y"]) /\
    styles !! "h2"%string = Some s /\
    name s = name default_h2 /\
    space_before (paragraph s) = Int 12.
Proof.
  eexists _, _. split; [reflexivity|]. split; [reflexivity|].
  pose proof (unprompted_fields_keep_defaults sample_answers _ [u "y"] "h2"%string
                _ default_h2 eq_refl eq_refl eq_refl) as [Hn [Hb _]].
  split; [exact Hn|exact Hb].
Defined.

(** * Detection and exit status *)

Section DetectionFacts.

Lemma find_none_iff {A} (f : A -> bool) (l : list A) :
  List.find f l = None <-> forall x, x ∈ l -> f x = false.
Proof.
  split.
  - intros H x Hx. apply list_elem_of_In in Hx. exact (find_none f l H x Hx).
  - intros H. destruct (List.find f l) as [x|] eqn:E; [|reflexivity].
    apply find_some in E as [Hin Hf]. apply list_elem_of_In in Hin.
    rewrite (H x Hin) in Hf. discriminate Hf.
Qed.

Lemma find_some_elem {A} (f : A -> bool) (l : list A) (x : A) :
  List.find f l = Some x -> x ∈ l /\ f x = true.
Proof. intros H. apply find_some in H as [Hin Hf]. by apply list_elem_of_In in Hin. Qed.

End DetectionFacts.

(** [detect_app] prefers Word: whenever some Word ProgID can be
    dispatched the answer is a dispatchable Word ProgID, named "Word";
    a WPS ProgID is returned only when no Word ProgID can be dispatched,
    and it is a dispatchable one, named "WPS"; and no ProgID is returned
    exactly when none of the six can be dispatched. *)
Theorem detect_app_prefers_word (w : World) :
  ((exists p, p ∈ WORD_PROG_IDS /\ dispatch_ok w p = true) ->
   exists p, detect_app w = (Some p, "Word"%string) /\
             p ∈ WORD_PROG_IDS /\ dispatch_ok w p = true) /\
  (forall p, detect_app w = (Some p, "WPS"%string) ->
     p ∈ WPS_PROG_IDS /\ dispatch_ok w p = true /\
     forall q, q ∈ WORD_PROG_IDS -> dispatch_ok w q = false) /\
  (fst (detect_app w) = None <->
   forall p, p ∈ WORD_PROG_IDS ++ WPS_PROG_IDS -> dispatch_ok w p = false).
Proof.
  unfold detect_app. split; [|split].
  - intros (p & Hp & Hok).
    destruct (List.find (dispatch_ok w) WORD_PROG_IDS) as [q|] eqn:E.
    + apply find_some_elem in E as [Hq Hqok]. by exists q.
    + rewrite (proj1 (find_none_iff _ _) E p Hp) in Hok. discriminate Hok.
  - intros p H.
    destruct (List.find (dispatch_ok w) WORD_PROG_IDS) as [q|] eqn:E; [discriminate H|].
    destruct (List.find (dispatch_ok w) WPS_PROG_IDS) as [q|] eqn:E2; [|discriminate H].
    injection H as ->. apply find_some_elem in E2 as [Hq Hqok].
    split; [done|]. split; [done|]. exact (proj1 (find_none_iff _ _) E).
  - split.
    + intros H p Hp.
      destruct (List.find (dispatch_ok w) WORD_PROG_IDS) as [q|] eqn:E; [discriminate H|].
      destruct (List.find (dispatch_ok w) WPS_PROG_IDS) as [q|] eqn:E2; [discriminate H|].
      apply elem_of_app in Hp as [Hp|Hp];
        [exact (proj1 (find_none_iff _ _) E p Hp)|exact (proj1 (find_none_iff _ _) E2 p Hp)].
    + intros H.
      assert (List.find (dispatch_ok w) WORD_PROG_IDS = None) as ->.
      { apply find_none_iff. intros p Hp. apply H, elem_of_app. by left. }
      assert (List.find (dispatch_ok w) WPS_PROG_IDS = None) as ->.
      { apply find_none_iff. intros p Hp. apply H, elem_of_app. by right. }
      reflexivity.
Qed.

(** Without [--check-app] and with [--no-prompt], the exit status is 0
    only after a complete conversion: a non-empty input path was given,
    the file exists and was read, the intermediate HTML was written, an
    application was found, the conversion step reported success, the
    resulting path is not empty, and with [--open] the document was
    opened. *)
Theorem no_prompt_status_zero (w : World) (args : Args) (stdin : list str) :
  check_app args = false -> no_prompt args = true ->
  run w args stdin = 0%Z ->
  exists md_path md_content,
    md_file args = Some md_path /\ md_path <> [] /\
    path_exists w md_path = true /\
    read_text w md_path = Some md_content /\
    write_text w (html_path_of w md_path)
      (generate (generate_css w DEFAULT_STYLES) (parse md_content)) = true /\
    is_Some (fst (detect_app w)) /\
    html_to_docx w (html_path_of w md_path) (docx_path_of w md_path) = true /\
    abspath w (docx_path_of w md_path) <> [] /\
    (open_flag args = true -> startfile_ok w (abspath w (docx_path_of w md_path)) = true).
Proof.
  unfold run, script, main. intros -> -> H.
  destruct (win32com_importable w); [|discriminate H].
  destruct (md_file args) as [[|c md_path]|]; [discriminate H| |discriminate H].
  exists (c :: md_path).
  unfold bind, lift, convert_md_to_word in H.
  destruct (path_exists w (c :: md_path)); [|discriminate H].
  destruct (read_text w (c :: md_path)) as [md_content|]; [|discriminate H].
  exists md_content.
  destruct (write_text w _ _) eqn:Hw; [|discriminate H].
  destruct (html_to_docx w _ _) eqn:Hc; [|discriminate H].
  cbn [negb truthy] in H.
  destruct (abspath w (docx_path_of w (c :: md_path))) as [|c' p'] eqn:Ha;
    [discriminate H|].
  repeat split; try done.
  - unfold html_to_docx in Hc. by destruct (fst (detect_app w)).
  - intros Ho. rewrite Ho in H. unfold startfile in H.
    by destruct (startfile_ok w (c' :: p')).
Qed.

Lemma no_prompt_status_zero_witness :
  exists md_path md_content,
    Some (u "notes.md") = Some md_path /\ md_path <> [] /\
    path_exists office_world md_path = true /\
    read_text office_world md_path = Some md_content /\
    write_text office_world (html_path_of office_world md_path)
      (generate (generate_css office_world DEFAULT_STYLES) (parse md_content)) = true /\
    is_Some (fst (detect_app office_world)) /\
    html_to_docx office_world (html_path_of office_world md_path)
      (docx_path_of office_world md_path) = true /\
    abspath office_world (docx_path_of office_world md_path) <> [] /\
    (true = true ->
     startfile_ok office_world (abspath office_world (docx_path_of office_world md_path))
     = true).
Proof.
  apply (no_prompt_status_zero office_world
           {| md_file := Some (u "notes.md"); output := None; no_prompt := true;
              open_flag := true; check_app := false |} []); reflexivity.
Defined.

(** The conversion step succeeds exactly when one of the six ProgIDs can
    be dispatched and the automation calls on the absolute paths of the
    two files all return. *)
Theorem html_to_docx_succeeds_iff (w : World) (html_path docx_path : str) :
  html_to_docx w html_path docx_path = true <->
  (exists prog_id, prog_id ∈ WORD_PROG_IDS ++ WPS_PROG_IDS /\
                   dispatch_ok w prog_id = true) /\
  automation_ok w (abspath w html_path) (abspath w docx_path) = true.
Proof.
  unfold html_to_docx, detect_app.
  destruct (List.find (dispatch_ok w) WORD_PROG_IDS) as [p|] eqn:E.
  - apply find_some_elem in E as [Hp Hok]. cbn [fst]. rewrite Hok. cbn [andb].
    split; [|by intros [_ ?]].
    intros H. split; [|done]. exists p. split; [|done]. apply elem_of_app. by left.
  - destruct (List.find (dispatch_ok w) WPS_PROG_IDS) as [p|] eqn:E2.
    + apply find_some_elem in E2 as [Hp Hok]. cbn [fst]. rewrite Hok. cbn [andb].
      split; [|by intros [_ ?]].
      intros H. split; [|done]. exists p. split; [|done]. apply elem_of_app. by right.
    + cbn [fst]. split; [done|]. intros [(p & Hp & Hok) _].
      apply elem_of_app in Hp as [Hp|Hp].
      * rewrite (proj1 (find_none_iff _ _) E p Hp) in Hok. discriminate Hok.
      * rewrite (proj1 (find_none_iff _ _) E2 p Hp) in Hok. discriminate Hok.
Qed.

(** In interactive mode, when the default styles are declined and a
    size, line spacing or space-after of the first group of answers is
    malformed, the [ValueError] of [ask_style_config] reaches the top
    level: the exit status is 1, whatever the machine and the input file
    are, and the conversion is not attempted. *)
Theorem interactive_malformed_number_status
    (w : World) (args : Args) (md_path no_line s0 s1 s2 s3 s4 : str) (rest : list str) :
  check_app args = false -> no_prompt args = false ->
  md_file args = Some md_path -> md_path <> [] ->
  lower (strip no_line) ∈ no_words ->
  float_ok s1 = false \/ float_ok s3 = false \/ float_ok s4 = false ->
  main w args (no_line :: s0 :: s1 :: s2 :: s3 :: s4 :: rest) = (Raise ValueError, rest) /\
  run w args (no_line :: s0 :: s1 :: s2 :: s3 :: s4 :: rest) = 1%Z.
Proof.
  intros Hc Hn Hf Hp Hno Hbad.
  assert (ask_yes_no true (no_line :: s0 :: s1 :: s2 :: s3 :: s4 :: rest)
          = (Ok false, s0 :: s1 :: s2 :: s3 :: s4 :: rest)) as Hask.
  { cbn [ask_yes_no]. cbv zeta.
    unfold no_words in Hno.
    repeat (apply elem_of_cons in Hno as [Hno|Hno]);
      [unfold str, char in *; rewrite Hno; reflexivity..|].
    by apply elem_of_nil in Hno. }
  assert (main w args (no_line :: s0 :: s1 :: s2 :: s3 :: s4 :: rest)
          = (Raise ValueError, rest)) as Hmain.
  { unfold main. rewrite Hc, Hf, Hn.
    destruct md_path as [|c md_path]; [done|].
    unfold interactive_mode. destruct (detect_app w) as [prog_id app_name].
    unfold bind at 1. unfold bind at 1. rewrite Hask.
    rewrite (first_group_conversion_fails s0 s1 s2 s3 s4 rest); [done|].
    destruct Hbad as [H|[H|H]]; [left|right; left|right; right];
      by apply float_answer_malformed. }
  split; [exact Hmain|]. unfold run, script.
  destruct (win32com_importable w); [by rewrite Hmain|reflexivity].
Qed.

Lemma interactive_malformed_number_status_witness :
  run bare_world
      {| md_file := Some (u "notes.md"); output := None; no_prompt := false;
         open_flag := false; check_app := false |}
      [u "N"; []; u "16pt"; []; []; []; u "left over"] = 1%Z.
Proof.
  refine (proj2 (interactive_malformed_number_status bare_world _ (u "notes.md")
                   (u "N") [] (u "16pt") [] [] [] [u "left over"] _ _ _ _ _ _));
    try reflexivity; try done.
  - apply (bool_decide_unpack _). vm_compute. exact I.
  - left. reflexivity.
Defined.
